(** * Chunked transcription: silence parsing, split planning, extraction,
      word normalisation and merge.

    A shallow embedding of [scripts/transcription.ts] (and of its sibling
    [scripts/transcribe-openai.ts], whose [detectSilences],
    [findSplitPoints], [splitAudio], [extractWords] and dispatch/merge code
    are the same text), of [src/utils.ts] (the scenes and the speaker
    groups built from the words) and of
    [scripts/postprocess-transcript.ts], followed by the properties of the
    chunking engine and of what reads its output.

    Modelling conventions.
    - A JavaScript string is the list of its UTF-16 code units ([jsstring]).
    - A JavaScript number is [Fin q], the exact rational value of a finite
      number, or one of [PInf], [NInf], [NaN].  The results of [+], [-],
      [*] and [/] on finite values are exact: the rounding of a result to
      binary64, overflow and the sign of zero are not modelled.
    - A loop whose number of turns depends on its input takes fuel and gives
      [None] when the fuel runs out; the properties state how much fuel is
      enough.
    - An [await]ed external call (ffmpeg, the transcription service) is an
      argument of the model: the text it writes, or what it ends with, a
      value or a thrown [Error].  The order in which the calls of a
      [Promise.all] complete is an argument as well.
*)

From Stdlib Require Import QArith Qround Qabs Qpower Lqa DecimalN.
From stdpp Require Import base list strings sorting.

Local Open Scope Z_scope.

(** ** JavaScript strings *)

Module JSString.

(** A string: its UTF-16 code units. *)
Definition jsstring := list N.

Definition code (a : Ascii.ascii) : N := Ascii.N_of_ascii a.

(** The code units of an ASCII literal. *)
Fixpoint lit (s : String.string) : jsstring :=
  match s with
  | String.EmptyString => []
  | String.String a r => code a :: lit r
  end.
Global Arguments lit s%_string.

(** [\s] of a regular expression, which is also what [trim] strips:
    WhiteSpace and LineTerminator of ECMAScript. *)
Definition is_space (c : N) : bool :=
  ((9 <=? c) && (c <=? 13) || (c =? 32) || (c =? 160) || (c =? 5760)
   || (8192 <=? c) && (c <=? 8202) || (c =? 8232) || (c =? 8233)
   || (c =? 8239) || (c =? 8287) || (c =? 12288) || (c =? 65279))%N.

(** [\d] *)
Definition is_digit (c : N) : bool := ((48 <=? c) && (c <=? 57))%N.

(** [[\d.]] *)
Definition is_digit_or_dot (c : N) : bool := is_digit c || (c =? 46)%N.

Fixpoint take_while (p : N -> bool) (s : jsstring) : jsstring :=
  match s with
  | c :: r => if p c then c :: take_while p r else []
  | [] => []
  end.

Fixpoint drop_while (p : N -> bool) (s : jsstring) : jsstring :=
  match s with
  | c :: r => if p c then drop_while p r else s
  | [] => []
  end.

Definition trimStart (s : jsstring) : jsstring := drop_while is_space s.
Definition trimEnd (s : jsstring) : jsstring :=
  rev (drop_while is_space (rev s)).
(** [s.trim()] *)
Definition trim (s : jsstring) : jsstring := trimEnd (trimStart s).

(** [s.split(/\s+/)]: [cur] is the piece being read, reversed; [in_sep]
    says that the previous code unit belonged to a separator, which the
    greedy [\s+] then extends.  The piece after the last separator is
    always pushed, so the empty string splits into one empty piece. *)
Fixpoint split_spaces_from (in_sep : bool) (cur : jsstring) (s : jsstring)
  : list jsstring :=
  match s with
  | [] => [rev cur]
  | c :: r =>
      if is_space c then
        if in_sep then split_spaces_from true cur r
        else rev cur :: split_spaces_from true [] r
      else split_spaces_from false (c :: cur) r
  end.

Definition split_spaces (s : jsstring) : list jsstring :=
  split_spaces_from false [] s.

(** [s.split(sep)] for a separator of one code unit. *)
Fixpoint split_char_from (sep : N) (cur : jsstring) (s : jsstring)
  : list jsstring :=
  match s with
  | [] => [rev cur]
  | c :: r =>
      if (c =? sep)%N then rev cur :: split_char_from sep [] r
      else split_char_from sep (c :: cur) r
  end.

Definition split_char (sep : N) (s : jsstring) : list jsstring :=
  split_char_from sep [] s.

Fixpoint starts_with (p s : jsstring) : bool :=
  match p, s with
  | [], _ => true
  | a :: p', b :: s' => (a =? b)%N && starts_with p' s'
  | _ :: _, [] => false
  end.

(** [s.replace(pat, rep)] with a string pattern: the first occurrence of
    [pat] is replaced, the rest of [s] is kept.  ([rep] holds no [$].) *)
Fixpoint replace (pat rep : jsstring) (s : jsstring) : jsstring :=
  if starts_with pat s then rep ++ drop (length pat) s
  else match s with
       | [] => []
       | c :: r => c :: replace pat rep r
       end.

(** [s.padStart(n, "0")] *)
Definition padStart (n : nat) (fill : N) (s : jsstring) : jsstring :=
  replicate (n - length s) fill ++ s.

(** Decimal digits of a natural number, most significant first. *)
Fixpoint digits_of_uint (d : Decimal.uint) : jsstring :=
  match d with
  | Decimal.Nil => []
  | Decimal.D0 r => 48%N :: digits_of_uint r
  | Decimal.D1 r => 49%N :: digits_of_uint r
  | Decimal.D2 r => 50%N :: digits_of_uint r
  | Decimal.D3 r => 51%N :: digits_of_uint r
  | Decimal.D4 r => 52%N :: digits_of_uint r
  | Decimal.D5 r => 53%N :: digits_of_uint r
  | Decimal.D6 r => 54%N :: digits_of_uint r
  | Decimal.D7 r => 55%N :: digits_of_uint r
  | Decimal.D8 r => 56%N :: digits_of_uint r
  | Decimal.D9 r => 57%N :: digits_of_uint r
  end.

Definition digits_of_N (n : N) : jsstring := digits_of_uint (N.to_uint n).

(** Decimal rendering of an integer. *)
Definition digits_of_Z (z : Z) : jsstring :=
  if z <? 0 then 45%N :: digits_of_N (Z.to_N (- z))
  else digits_of_N (Z.to_N z).

(** Value of a run of decimal digits read left to right from [acc]. *)
Fixpoint digits_value (acc : N) (s : jsstring) : N :=
  match s with
  | [] => acc
  | c :: r => digits_value (10 * acc + (c - 48))%N r
  end.

End JSString.

Import JSString.

(** ** JavaScript numbers *)

Module JSNumber.

Local Open Scope Q_scope.

Inductive number : Type :=
| Fin (q : Q)   (* a finite value *)
| PInf          (* Infinity *)
| NInf          (* -Infinity *)
| NaN.

Definition of_Z (z : Z) : number := Fin (inject_Z z).
Definition of_nat (n : nat) : number := of_Z (Z.of_nat n).

Definition Qltb (a b : Q) : bool := negb (Qle_bool b a).

Definition neg (x : number) : number :=
  match x with
  | Fin a => Fin (- a)
  | PInf => NInf
  | NInf => PInf
  | NaN => NaN
  end.

Definition add (x y : number) : number :=
  match x, y with
  | NaN, _ | _, NaN => NaN
  | Fin a, Fin b => Fin (a + b)
  | PInf, NInf | NInf, PInf => NaN
  | PInf, _ | _, PInf => PInf
  | NInf, _ | _, NInf => NInf
  end.

Definition sub (x y : number) : number := add x (neg y).

(** Infinity times a finite factor [a]. *)
Definition scale_inf (positive : bool) (a : Q) : number :=
  match a ?= 0 with
  | Eq => NaN
  | Gt => if positive then PInf else NInf
  | Lt => if positive then NInf else PInf
  end.

Definition mul (x y : number) : number :=
  match x, y with
  | NaN, _ | _, NaN => NaN
  | Fin a, Fin b => Fin (a * b)
  | Fin a, PInf | PInf, Fin a => scale_inf true a
  | Fin a, NInf | NInf, Fin a => scale_inf false a
  | PInf, PInf | NInf, NInf => PInf
  | PInf, NInf | NInf, PInf => NInf
  end.

Definition div (x y : number) : number :=
  match x, y with
  | NaN, _ | _, NaN => NaN
  | Fin a, Fin b =>
      if Qeq_bool b 0 then
        match a ?= 0 with Eq => NaN | Gt => PInf | Lt => NInf end
      else Fin (a / b)
  | Fin _, _ => Fin 0
  | PInf, Fin b => if Qltb b 0 then NInf else PInf
  | NInf, Fin b => if Qltb b 0 then PInf else NInf
  | _, _ => NaN
  end.

(** [x < y]; every comparison with [NaN] is false. *)
Definition ltb (x y : number) : bool :=
  match x, y with
  | NaN, _ | _, NaN => false
  | Fin a, Fin b => Qltb a b
  | _, NInf => false
  | PInf, _ => false
  | NInf, _ => true
  | Fin _, PInf => true
  end.

(** [x <= y] *)
Definition leb (x y : number) : bool :=
  match x, y with
  | NaN, _ | _, NaN => false
  | Fin a, Fin b => Qle_bool a b
  | NInf, _ => true
  | _, PInf => true
  | _, NInf => false
  | PInf, _ => false
  end.

(** [x >= y] *)
Definition geb (x y : number) : bool := leb y x.

(** [Math.abs] *)
Definition abs (x : number) : number :=
  match x with
  | Fin a => Fin (Qabs a)
  | PInf | NInf => PInf
  | NaN => NaN
  end.

(** [Math.floor] *)
Definition floor (x : number) : number :=
  match x with
  | Fin a => Fin (inject_Z (Qfloor a))
  | _ => x
  end.

(** Rounding towards zero. *)
Definition Qtrunc (q : Q) : Z := if Qltb q 0 then Qceiling q else Qfloor q.

(** [x % y]: the remainder has the sign of the dividend. *)
Definition rem (x y : number) : number :=
  match x, y with
  | Fin a, Fin b =>
      if Qeq_bool b 0 then NaN else Fin (a - b * inject_Z (Qtrunc (a / b)))
  | Fin a, (PInf | NInf) => Fin a
  | _, _ => NaN
  end.

(** The digits of [x.toFixed(f)] for [x >= 0]: the integer [n] nearest to
    [x * 10^f], the larger one on a tie, written with at least [f + 1]
    digits and a point before the last [f]. *)
Definition fixed_digits (f : nat) (a : Q) : jsstring :=
  let n := Qfloor (a * inject_Z (10 ^ Z.of_nat f)%Z + (1 # 2)) in
  let m := padStart (S f) 48%N (digits_of_Z n) in
  let k := length m in
  match f with
  | O => m
  | _ => take (k - f) m ++ 46%N :: drop (k - f) m
  end.

(** [x.toFixed(f)].  At [10^21] and above JavaScript switches to the
    exponent notation of [toString]; the model keeps plain digits there. *)
Definition toFixed (f : nat) (x : number) : jsstring :=
  match x with
  | Fin q =>
      if Qltb q 0 then 45%N :: fixed_digits f (- q) else fixed_digits f q
  | PInf => lit "Infinity"
  | NInf => lit "-Infinity"
  | NaN => lit "NaN"
  end.

(** [x.toString()] of a number that is an integer (as [Math.floor]
    returns); below [10^21] these are the plain decimal digits. *)
Definition toString (x : number) : jsstring :=
  match x with
  | Fin q => digits_of_Z (Qfloor q)
  | PInf => lit "Infinity"
  | NInf => lit "-Infinity"
  | NaN => lit "NaN"
  end.

(** The exponent part of a decimal literal: [e] or [E], an optional sign
    and at least one digit; anything else is not part of the number. *)
Definition parse_exponent (s : jsstring) : Z :=
  match s with
  | c :: r =>
      if ((c =? 101) || (c =? 69))%N then
        let '(negative, r') :=
          match r with
          | 45%N :: t => (true, t)
          | 43%N :: t => (false, t)
          | _ => (false, r)
          end in
        let ds := take_while is_digit r' in
        match ds with
        | [] => 0
        | _ => let e := Z.of_N (digits_value 0 ds) in
               if negative then - e else e
        end
      else 0
  | [] => 0
  end%Z.

(** An unsigned decimal literal at the head of [s], if there is one:
    digits with an optional fraction, or a point followed by digits. *)
Definition parse_unsigned (s : jsstring) : option Q :=
  let ip := take_while is_digit s in
  let r := drop_while is_digit s in
  let '(fp, r') :=
    match r with
    | 46%N :: t =>
        let fp := take_while is_digit t in
        match ip, fp with
        | [], [] => ([], r)
        | _, _ => (fp, drop_while is_digit t)
        end
    | _ => ([], r)
    end in
  match ip, fp with
  | [], [] => None
  | _, _ =>
      let mant :=
        inject_Z (Z.of_N (digits_value 0 (ip ++ fp)))
        / inject_Z (10 ^ Z.of_nat (length fp))%Z in
      Some (Qred (mant * Qpower (10 # 1) (parse_exponent r')))
  end.

(** [parseFloat]: leading white space is skipped, then the longest prefix
    that is a decimal literal is read; [NaN] when there is none. *)
Definition parseFloat (s : jsstring) : number :=
  let s := trimStart s in
  let '(negative, r) :=
    match s with
    | 45%N :: t => (true, t)
    | 43%N :: t => (false, t)
    | _ => (false, s)
    end in
  if starts_with (lit "Infinity") r then (if negative then NInf else PInf)
  else match parse_unsigned r with
       | Some q => Fin (if negative then - q else q)
       | None => NaN
       end.

End JSNumber.

Import JSNumber.

Declare Scope js_scope.
Delimit Scope js_scope with js.
Bind Scope js_scope with number.
Infix "+" := add : js_scope.
Infix "-" := sub : js_scope.
Infix "*" := mul : js_scope.
Infix "/" := div : js_scope.
Infix "<?" := ltb : js_scope.
Infix "<=?" := leb : js_scope.
Infix ">=?" := geb (at level 70) : js_scope.
Infix "%%" := rem (at level 40, left associativity) : js_scope.

Local Open Scope js_scope.

(** ** Data model *)

(** [interface Silence] *)
Module Silence.
Record t : Type := mk { start : number; end_ : number }.
End Silence.

(** [interface ChunkInfo] *)
Module ChunkInfo.
Record t : Type :=
  mk { path : jsstring; startOffset : number; duration : number }.
End ChunkInfo.

(** [interface DiarizedSegment] *)
Module DiarizedSegment.
Record t : Type :=
  mk { speaker : jsstring; text : jsstring; start : number; end_ : number }.
End DiarizedSegment.

(** An element of [VerboseResponse.words]. *)
Module TimedWord.
Record t : Type := mk { word : jsstring; start : number; end_ : number }.
End TimedWord.

(** [interface VerboseResponse]; an absent optional field is [None]. *)
Module VerboseResponse.
Record t : Type :=
  mk { text : jsstring;
       words : option (list TimedWord.t);
       segments : option (list DiarizedSegment.t) }.
End VerboseResponse.

(** [interface TranscriptionWord] *)
Module TranscriptionWord.
Record t : Type :=
  mk { word : jsstring;
       startOffset : option jsstring;
       endOffset : option jsstring;
       startTime : option jsstring;
       endTime : option jsstring;
       speakerLabel : option jsstring }.
End TranscriptionWord.

(** ** Silence detector *)

(** A match of [/<marker>\s*([\d.]+)/] that starts at the head of [s]: the
    text of its capture group.  The white space is taken greedily and the
    group needs one code unit at least; giving white space back never helps,
    since no white space is a digit or a point. *)
Definition match_marker_here (marker s : jsstring) : option jsstring :=
  if starts_with marker s then
    match take_while is_digit_or_dot
            (drop_while is_space (drop (length marker) s)) with
    | [] => None
    | cap => Some cap
    end
  else None.

(** [line.match(/<marker>\s*([\d.]+)/)]: the leftmost match. *)
Fixpoint match_marker (marker line : jsstring) : option jsstring :=
  match match_marker_here marker line with
  | Some cap => Some cap
  | None =>
      match line with
      | [] => None
      | _ :: r => match_marker marker r
      end
  end.

Definition silence_start_marker : jsstring := lit "silence_start:".
Definition silence_end_marker : jsstring := lit "silence_end:".

(** The state of the loop of [detectSilences]: [silences], [currentStart]. *)
Definition detect_state : Type := list Silence.t * option number.

(** One turn of [for (const line of text.split("\n"))]. *)
Definition detect_line (st : detect_state) (line : jsstring) : detect_state :=
  let '(silences, currentStart) := st in
  let startMatch := match_marker silence_start_marker line in
  let endMatch := match_marker silence_end_marker line in
  match startMatch with
  | Some cap => (silences, Some (parseFloat cap))
  | None =>
      match endMatch, currentStart with
      | Some cap, Some cs =>
          (silences ++ [Silence.mk cs (parseFloat cap)], None)
      | _, _ => (silences, currentStart)
      end
  end.

(** [detectSilences], from the text that ffmpeg wrote to its error stream. *)
Definition detectSilences (text : jsstring) : list Silence.t :=
  fst (fold_left detect_line (split_char 10%N text) ([], None)).

(** ** Split planner *)

(** The state of the search for one target: [bestSilence], [bestDistance]. *)
Definition best_state : Type := option Silence.t * number.

(** [s.start >= target - window && s.start <= target + window] *)
Definition in_window (target window : number) (s : Silence.t) : bool :=
  (Silence.start s >=? target - window)
  && (Silence.start s <=? target + window).

(** The body of [for (const s of silences)]. *)
Definition consider (target window : number) (st : best_state)
  (s : Silence.t) : best_state :=
  if in_window target window s then
    let distance := abs (Silence.start s - target) in
    if distance <? snd st then (Some s, distance) else st
  else st.

Definition scan (silences : list Silence.t) (target window : number)
  (st : best_state) : best_state :=
  fold_left (consider target window) silences st.

(** [for (let window = 30; window <= 180 && !bestSilence; window += 30)];
    [None] when the fuel is used up before the loop ends. *)
Fixpoint window_loop (fuel : nat) (silences : list Silence.t)
  (target window : number) (st : best_state) : option best_state :=
  if (window <=? of_Z 180) && negb (bool_decide (is_Some (fst st))) then
    match fuel with
    | O => None
    | S fuel' =>
        window_loop fuel' silences target (window + of_Z 30)
          (scan silences target window st)
    end
  else Some st.

(** The windows are 30, 60, ..., 180: seven tests of the loop condition. *)
Definition search_windows (silences : list Silence.t) (target : number)
  : option best_state :=
  window_loop 7 silences target (of_Z 30) (None, PInf).

(** [bestSilence ? bestSilence.start : target] *)
Definition chosen (st : best_state) (target : number) : number :=
  match fst st with
  | Some s => Silence.start s
  | None => target
  end.

(** [for (let target = chunkSec; target < totalDuration; target += chunkSec)]
    with its body; [None] when the fuel is used up before the loop ends. *)
Fixpoint target_loop (fuel : nat) (silences : list Silence.t)
  (totalDuration chunkSec target : number) (splits : list number)
  : option (list number) :=
  if target <? totalDuration then
    match fuel with
    | O => None
    | S fuel' =>
        st ← search_windows silences target;
        target_loop fuel' silences totalDuration chunkSec (target + chunkSec)
          (splits ++ [chosen st target])
    end
  else Some splits.

Definition findSplitPoints (fuel : nat) (silences : list Silence.t)
  (totalDuration chunkSec : number) : option (list number) :=
  target_loop fuel silences totalDuration chunkSec chunkSec [of_Z 0].

(** [const CHUNK_DURATION_SEC = 600] *)
Definition CHUNK_DURATION_SEC : number := of_Z 600.

(** ** Chunk extractor *)

(** One run of ffmpeg: [-i source -ss ss -to to ... target]. *)
Module FfmpegRun.
Record t : Type :=
  mk { source : jsstring; ss : number; to : number; target : jsstring }.
End FfmpegRun.

Definition chunkPath (i : nat) : jsstring :=
  lit "/tmp/transcribe_chunk_" ++ digits_of_N (N.of_nat i) ++ lit ".wav".

(** The body of [for (let i = 0; i < splitPoints.length; i++)]: the ffmpeg
    run it awaits and the chunk it pushes.  [start] is [splitPoints[i]]. *)
Definition split_step (filePath : jsstring) (splitPoints : list number)
  (totalDuration : number) (i : nat) (start : number)
  : FfmpegRun.t * ChunkInfo.t :=
  let end_ := default totalDuration (splitPoints !! S i) in
  (FfmpegRun.mk filePath start end_ (chunkPath i),
   ChunkInfo.mk (chunkPath i) start (end_ - start)).

(** [splitAudio]: the runs of ffmpeg in order, and the chunks returned. *)
Definition splitAudio (filePath : jsstring) (splitPoints : list number)
  (totalDuration : number) : list FfmpegRun.t * list ChunkInfo.t :=
  let steps := imap (split_step filePath splitPoints totalDuration)
                 splitPoints in
  (fst <$> steps, snd <$> steps).

(** ** Conversion *)

(** [toMMSS] of the transcription scripts. *)
Definition toMMSS (seconds : number) : jsstring :=
  let mins := floor (seconds / of_Z 60) in
  let secs := seconds %% of_Z 60 in
  padStart 2 48%N (toString mins) ++ lit ":"
    ++ padStart 6 48%N (toFixed 3 secs).

(** The seconds template: [`${x.toFixed(3)}s`]. *)
Definition seconds_text (x : number) : jsstring := toFixed 3 x ++ lit "s".

(** The word pushed for one element of [result.words]. *)
Definition word_of_timed (offsetSec : number) (w : TimedWord.t)
  : TranscriptionWord.t :=
  let startSec := TimedWord.start w + offsetSec in
  let endSec := TimedWord.end_ w + offsetSec in
  TranscriptionWord.mk (TimedWord.word w)
    (Some (seconds_text startSec)) (Some (seconds_text endSec))
    (Some (toMMSS startSec)) (Some (toMMSS endSec))
    (Some (lit "0")).

(** The word pushed for [segmentWords[i]]. *)
Definition word_of_token (segment : DiarizedSegment.t)
  (wordDuration offsetSec : number) (i : nat) (token : jsstring)
  : TranscriptionWord.t :=
  let wordStart :=
    DiarizedSegment.start segment + of_nat i * wordDuration + offsetSec in
  let wordEnd :=
    DiarizedSegment.start segment + of_nat (i + 1) * wordDuration
    + offsetSec in
  TranscriptionWord.mk token
    (Some (seconds_text wordStart)) (Some (seconds_text wordEnd))
    (Some (toMMSS wordStart)) (Some (toMMSS wordEnd))
    (Some (replace (lit "speaker_") [] (DiarizedSegment.speaker segment))).

(** The words pushed for one segment; none when the guard [continue]s. *)
Definition words_of_segment (offsetSec : number)
  (segment : DiarizedSegment.t) : list TranscriptionWord.t :=
  let segmentWords := split_spaces (trim (DiarizedSegment.text segment)) in
  if bool_decide (length segmentWords = 0%nat)
     || bool_decide (segmentWords !! 0%nat = Some []) then []
  else
    let duration :=
      DiarizedSegment.end_ segment - DiarizedSegment.start segment in
    let wordDuration := duration / of_nat (length segmentWords) in
    imap (word_of_token segment wordDuration offsetSec) segmentWords.

(** [extractWords(result, offsetSec)] *)
Definition extractWords (result : VerboseResponse.t) (offsetSec : number)
  : list TranscriptionWord.t :=
  match VerboseResponse.words result with
  | Some ws => word_of_timed offsetSec <$> ws
  | None =>
      match VerboseResponse.segments result with
      | Some segs => concat (words_of_segment offsetSec <$> segs)
      | None => []
      end
  end.

(** [parseOffset] of [src/utils.ts], which reads the seconds back: an
    absent or empty text counts as 0. *)
Definition parseOffset (offset : option jsstring) : number :=
  match offset with
  | None | Some [] => of_Z 0
  | Some s => parseFloat (replace (lit "s") [] s)
  end.

(** ** Dispatch and merge *)

(** What a thrown [Error] carries. *)
Record Error : Type := { message : jsstring }.

(** How an awaited call ends: with a value, or by throwing. *)
Inductive settled (A : Type) : Type :=
| Fulfilled (a : A)
| Rejected (err : Error).
Arguments Fulfilled {A} a.
Arguments Rejected {A} err.

(** [const x = await body; rest] *)
Definition await {A B : Type} (body : settled A) (rest : A -> settled B)
  : settled B :=
  match body with
  | Fulfilled a => rest a
  | Rejected err => Rejected err
  end.

(** [try { body } catch (err) { handler }] *)
Definition try_catch {A : Type} (body : settled A)
  (handler : Error -> settled A) : settled A :=
  match body with
  | Fulfilled a => Fulfilled a
  | Rejected err => handler err
  end.

(** The transcription service as [transcribeFile] sees it: what the call
    for the file at a path ends with. *)
Definition Service : Type := jsstring -> settled VerboseResponse.t.

(** [{ index, words, chunk }] *)
Module Outcome.
Record t : Type :=
  mk { index : nat; words : list TranscriptionWord.t; chunk : ChunkInfo.t }.
End Outcome.

(** The callback of [chunks.map(async (chunk, i) => ...)]. *)
Definition transcribe_chunk (service : Service) (i : nat)
  (chunk : ChunkInfo.t) : settled Outcome.t :=
  try_catch
    (await (service (ChunkInfo.path chunk)) (fun result =>
       Fulfilled
         (Outcome.mk i (extractWords result (ChunkInfo.startOffset chunk))
            chunk)))
    (fun err => Fulfilled (Outcome.mk i [] chunk)).

(** [Promise.all]: the promises settle in the order [order] (positions in
    [promises]).  A fulfilled promise stores its value at its own position
    of [values]; the first rejected one rejects the whole. *)
Fixpoint settle_all {A : Type} (order : list nat) (promises : list (settled A))
  (values : list (option A)) : settled (list (option A)) :=
  match order with
  | [] => Fulfilled values
  | i :: rest =>
      match promises !! i with
      | Some (Fulfilled v) => settle_all rest promises (<[i := Some v]> values)
      | Some (Rejected err) => Rejected err
      | None => settle_all rest promises values
      end
  end.

(** [None]: some promise has not settled, [Promise.all] is still pending. *)
Definition promise_all {A : Type} (order : list nat)
  (promises : list (settled A)) : option (settled (list A)) :=
  match settle_all order promises (replicate (length promises) None) with
  | Rejected err => Some (Rejected err)
  | Fulfilled values => Fulfilled <$> mapM id values
  end.

(** The comparator [(a, b) => a.index - b.index]. *)
Definition by_index (a b : Outcome.t) : Z :=
  (Z.of_nat (Outcome.index a) - Z.of_nat (Outcome.index b))%Z.

(** [results.sort(by_index)].  The sort of an array is stable, and the
    stable order is unique, so insertion from the right stands for it. *)
Fixpoint insert_sorted (r : Outcome.t) (rs : list Outcome.t)
  : list Outcome.t :=
  match rs with
  | [] => [r]
  | r' :: rest =>
      if (by_index r r' <=? 0)%Z then r :: rs else r' :: insert_sorted r rest
  end.

Definition sort_results (results : list Outcome.t) : list Outcome.t :=
  foldr insert_sorted [] results.

(** [results.sort(...); for (const r of results) allWords.push(...r.words)] *)
Definition mergeWords (results : list Outcome.t) : list TranscriptionWord.t :=
  fold_left (fun allWords r => allWords ++ Outcome.words r)
    (sort_results results) [].

(** The dispatch stage of [main]: [chunks.map(...)] and [Promise.all]. *)
Definition dispatch (service : Service) (order : list nat)
  (chunks : list ChunkInfo.t) : option (settled (list Outcome.t)) :=
  promise_all order (imap (transcribe_chunk service) chunks).

(** The chunked branch of [main] from [chunks] on: the value of [allWords]. *)
Definition transcribeChunks (service : Service) (order : list nat)
  (chunks : list ChunkInfo.t) : option (settled (list TranscriptionWord.t)) :=
  results ← dispatch service order chunks;
  Some (await results (fun results => Fulfilled (mergeWords results))).

(** [main] from the duration on: [allWords].  [silenceLog] is what ffmpeg
    writes for [detectSilences]; [None] stands for a run that does not end. *)
Definition transcribe (service : Service) (audioPath : jsstring)
  (duration : number) (silenceLog : jsstring) (fuel : nat) (order : list nat)
  : option (settled (list TranscriptionWord.t)) :=
  if duration <=? CHUNK_DURATION_SEC then
    Some (await (service audioPath) (fun result =>
            Fulfilled (extractWords result (of_Z 0))))
  else
    let silences := detectSilences silenceLog in
    splitPoints ← findSplitPoints fuel silences duration CHUNK_DURATION_SEC;
    let chunks := snd (splitAudio audioPath splitPoints duration) in
    transcribeChunks service order chunks.

(** [getAudioDuration], from the text that ffprobe wrote to its output. *)
Definition getAudioDuration (text : jsstring) : number :=
  parseFloat (trim text).

(** ** Scenes and speakers *)

(** [parts.join(sep)] *)
Fixpoint join (sep : jsstring) (parts : list jsstring) : jsstring :=
  match parts with
  | [] => []
  | [x] => x
  | x :: r => x ++ sep ++ join sep r
  end.

Module Utils.

(** [toMMSS] of [src/utils.ts], which writes tenths of a second, and only
    when the seconds have a fraction. *)
Definition toMMSS (seconds : number) : jsstring :=
  let mins := floor (seconds / of_Z 60) in
  let secs := seconds %% of_Z 60 in
  let secsInt := floor secs in
  let secsDec := secs %% of_Z 1 in
  let secsStr :=
    if of_Z 0 <? secsDec then
      padStart 2 48%N (toString secsInt) ++ drop 1 (toFixed 1 secsDec)
    else padStart 2 48%N (toString secsInt) in
  padStart 2 48%N (toString mins) ++ lit ":" ++ secsStr.

End Utils.

(** The callback of [words.filter(...)] in [getWordsForScene]; a start
    offset that is absent or empty is falsy. *)
Definition in_scene (startTime endTime : number) (w : TranscriptionWord.t)
  : bool :=
  match TranscriptionWord.startOffset w with
  | None | Some [] => false
  | Some _ =>
      let wordStart := parseOffset (TranscriptionWord.startOffset w) in
      (wordStart >=? startTime) && (wordStart <? endTime)
  end.

Definition getWordsForScene (words : list TranscriptionWord.t)
  (startTime endTime : number) : list TranscriptionWord.t :=
  filter (fun w => in_scene startTime endTime w) words.

(** [{ speaker, text }] *)
Module SpeakerGroup.
Record t : Type := mk { speaker : jsstring; text : jsstring }.
End SpeakerGroup.

(** [word.speakerLabel ?? "0"] *)
Definition label_of (w : TranscriptionWord.t) : jsstring :=
  default (lit "0") (TranscriptionWord.speakerLabel w).

(** The loop of [groupWordsBySpeaker] over [words[1..]], and the push that
    follows it. *)
Fixpoint group_loop (words : list TranscriptionWord.t)
  (currentSpeaker : jsstring) (currentWords : list jsstring)
  (groups : list SpeakerGroup.t) : list SpeakerGroup.t :=
  match words with
  | [] =>
      groups
        ++ [SpeakerGroup.mk currentSpeaker (join (lit " ") currentWords)]
  | word :: rest =>
      let speaker := label_of word in
      if bool_decide (speaker = currentSpeaker) then
        group_loop rest currentSpeaker
          (currentWords ++ [TranscriptionWord.word word]) groups
      else
        group_loop rest speaker [TranscriptionWord.word word]
          (groups
             ++ [SpeakerGroup.mk currentSpeaker
                   (join (lit " ") currentWords)])
  end.

Definition groupWordsBySpeaker (words : list TranscriptionWord.t)
  : list SpeakerGroup.t :=
  match words with
  | [] => []
  | first :: rest =>
      group_loop rest (label_of first) [TranscriptionWord.word first] []
  end.

(** ** Transcripts *)

(** [{ words }] *)
Module Alternative.
Record t : Type := mk { words : list TranscriptionWord.t }.
End Alternative.

(** [{ alternatives, languageCode }]; the language code is optional. *)
Module RecognitionResult.
Record t : Type :=
  mk { alternatives : list Alternative.t; languageCode : option jsstring }.
End RecognitionResult.

(** [{ results }] *)
Definition TranscriptionResult : Type := list RecognitionResult.t.

(** The object that [main] of the transcription script writes:
    [{ results: [{ alternatives: [{ words: allWords }], languageCode }] }]. *)
Definition output (allWords : list TranscriptionWord.t)
  : TranscriptionResult :=
  [RecognitionResult.mk [Alternative.mk allWords] (Some (lit "ko-KR"))].

(** [loadTranscriptionWords], from the object read:
    [data.results.flatMap((r) => r.alternatives[0]?.words ?? [])]. *)
Definition loadTranscriptionWords (data : TranscriptionResult)
  : list TranscriptionWord.t :=
  concat ((fun r =>
             match RecognitionResult.alternatives r with
             | alt :: _ => Alternative.words alt
             | [] => []
             end) <$> data).

(** [/[\uAC00-\uD7AF]/.test(text)]: some code unit from 44032 to 55215,
    a Hangul syllable. *)
Definition containsKorean (text : jsstring) : bool :=
  existsb (fun c => (44032 <=? c) && (c <=? 55215))%N text.

(** The label given to Korean words: the one syllable U+D050. *)
Definition korean_label : jsstring := [53328%N].

(** [{ ...word, speakerLabel: containsKorean(word.word) ? label
    : word.speakerLabel }] *)
Definition relabel (word : TranscriptionWord.t) : TranscriptionWord.t :=
  TranscriptionWord.mk (TranscriptionWord.word word)
    (TranscriptionWord.startOffset word) (TranscriptionWord.endOffset word)
    (TranscriptionWord.startTime word) (TranscriptionWord.endTime word)
    (if containsKorean (TranscriptionWord.word word) then Some korean_label
     else TranscriptionWord.speakerLabel word).

(** [postprocessTranscript]: every result and every alternative is built
    anew, with its words relabelled and nothing else. *)
Definition postprocessTranscript (transcript : TranscriptionResult)
  : TranscriptionResult :=
  (fun result =>
     RecognitionResult.mk
       ((fun alt => Alternative.mk (relabel <$> Alternative.words alt))
          <$> RecognitionResult.alternatives result)
       None)
    <$> transcript.

(** The words that [convertToTranscriptionFormat] of the transcription
    client pushes for one segment: there is no guard for a blank text and
    no offset, and the clock texts are left out. *)
Definition plain_word_of_timed (w : TimedWord.t) : TranscriptionWord.t :=
  TranscriptionWord.mk (TimedWord.word w)
    (Some (seconds_text (TimedWord.start w)))
    (Some (seconds_text (TimedWord.end_ w)))
    None None (Some (lit "0")).

Definition plain_word_of_token (segment : DiarizedSegment.t)
  (wordDuration : number) (i : nat) (token : jsstring)
  : TranscriptionWord.t :=
  let wordStart := DiarizedSegment.start segment + of_nat i * wordDuration in
  let wordEnd :=
    DiarizedSegment.start segment + of_nat (i + 1) * wordDuration in
  TranscriptionWord.mk token
    (Some (seconds_text wordStart)) (Some (seconds_text wordEnd))
    None None
    (Some (replace (lit "speaker_") [] (DiarizedSegment.speaker segment))).

Definition plain_words_of_segment (segment : DiarizedSegment.t)
  : list TranscriptionWord.t :=
  let segmentWords := split_spaces (trim (DiarizedSegment.text segment)) in
  let duration :=
    DiarizedSegment.end_ segment - DiarizedSegment.start segment in
  let wordDuration := duration / of_nat (length segmentWords) in
  imap (plain_word_of_token segment wordDuration) segmentWords.

(** [convertToTranscriptionFormat(result)] *)
Definition convertToTranscriptionFormat (result : VerboseResponse.t)
  : TranscriptionResult :=
  let words :=
    match VerboseResponse.words result with
    | Some ws => plain_word_of_timed <$> ws
    | None =>
        match VerboseResponse.segments result with
        | Some segs => concat (plain_words_of_segment <$> segs)
        | None => []
        end
    end in
  [RecognitionResult.mk [Alternative.mk words] (Some (lit "ko-KR"))].

(** * Vocabulary of the properties *)

(** ** Silence detector *)

(** What one line of the detector's log says. *)
Inductive marker : Type :=
| StartMarker (v : number)
| EndMarker (v : number)
| NoMarker.

(** A line with a start marker is a start, whatever else it holds; else a
    line with an end marker is an end. *)
Definition classify (line : jsstring) : marker :=
  match match_marker silence_start_marker line with
  | Some cap => StartMarker (parseFloat cap)
  | None =>
      match match_marker silence_end_marker line with
      | Some cap => EndMarker (parseFloat cap)
      | None => NoMarker
      end
  end.

Definition is_marker (m : marker) : bool :=
  match m with NoMarker => false | _ => true end.

(** The intervals of a stream of markers, as the specification words them:
    an end marker closes the start marker that is open, if one is, and
    gives one interval; a start marker that no end marker follows gives
    none.  [open] is the start that waits for its end. *)
Fixpoint matched_pairs (open : option number) (ms : list marker)
  : list Silence.t :=
  match ms with
  | [] => []
  | StartMarker v :: rest => matched_pairs (Some v) rest
  | EndMarker e :: rest =>
      match open with
      | Some s => Silence.mk s e :: matched_pairs None rest
      | None => matched_pairs None rest
      end
  | NoMarker :: rest => matched_pairs open rest
  end.

(** The markers of a log that holds the given pairs in turn. *)
Definition markers_of_pairs (pairs : list (number * number)) : list marker :=
  concat ((fun p => [StartMarker (fst p); EndMarker (snd p)]) <$> pairs).

(** A start marker left open at the end of the stream, if there is one. *)
Definition trailing_start (v : option number) : list marker :=
  match v with
  | Some s => [StartMarker s]
  | None => []
  end.

Definition silence_of_pair (p : number * number) : Silence.t :=
  Silence.mk (fst p) (snd p).

(** ** Split planner *)

(** Strictly increasing: every element is below the next one. *)
Fixpoint increasing (l : list number) : bool :=
  match l with
  | x :: (y :: _) as r => (x <? y) && increasing r
  | _ => true
  end.

(** The [k]-th checkpoint (from 0): [chunkSec] after [k] turns of
    [target += chunkSec]. *)
Definition checkpoint (chunkSec : number) (k : nat) : number :=
  Nat.iter k (fun target => target + chunkSec) chunkSec.

(** The [j]-th window size: 30, 60, ..., 180 for [j] from 1 to 6. *)
Definition window_of (j : nat) : number := of_Z (30 * Z.of_nat j).

(** A silence whose start lies within [window] of [target]. *)
Definition candidate (silences : list Silence.t) (target window : number)
  (s : Silence.t) : Prop :=
  s ∈ silences /\ in_window target window s = true.

(** [Math.abs(s.start - target)] *)
Definition distance_to (target : number) (s : Silence.t) : number :=
  abs (Silence.start s - target).

(** The state before the first window. *)
Definition no_best : best_state := (None, PInf).

(** What the window loop computes: the scan of the first window, in the
    order given, that finds a silence. *)
Fixpoint first_window (silences : list Silence.t) (target : number)
  (windows : list number) : best_state :=
  match windows with
  | [] => no_best
  | w :: rest =>
      let st := scan silences target w no_best in
      if bool_decide (is_Some (fst st)) then st
      else first_window silences target rest
  end.

(** The offset pushed for one target. *)
Definition planned_offset (silences : list Silence.t) (target : number)
  : number :=
  chosen (first_window silences target (window_of <$> seq 1 6)) target.

(** [st] is a best choice among the silences [seen] for one window. *)
Definition best_of (target window : number) (seen : list Silence.t)
  (st : best_state) : Prop :=
  match fst st with
  | None =>
      st = no_best /\ forall s, s ∈ seen -> in_window target window s = false
  | Some b =>
      candidate seen target window b
      /\ snd st = distance_to target b
      /\ forall s, candidate seen target window s ->
           (distance_to target b <=? distance_to target s) = true
  end.

(** Two states of the search that agree on the start of the best silence
    and on the best distance. *)
Definition same_best (st1 st2 : best_state) : Prop :=
  Silence.start <$> fst st1 = Silence.start <$> fst st2 /\ snd st1 = snd st2.

(** ** Chunk extractor *)

(** The end of the chunk that starts at [splitPoints[i]]. *)
Definition chunk_end (splitPoints : list number) (totalDuration : number)
  (i : nat) : number :=
  default totalDuration (splitPoints !! S i).

(** The time ranges [[o0,o1), [o1,o2), ..., [on,totalDuration)]: every
    offset paired with the next one, the last with the total duration. *)
Definition ranges_of (splitPoints : list number) (totalDuration : number)
  : list (number * number) :=
  zip splitPoints (drop 1 splitPoints ++ [totalDuration]).

(** The time range one run of ffmpeg cuts out. *)
Definition run_range (r : FfmpegRun.t) : number * number :=
  (FfmpegRun.ss r, FfmpegRun.to r).

(** The chunk record for the [i]-th range. *)
Definition chunk_of_range (i : nat) (range : number * number) : ChunkInfo.t :=
  ChunkInfo.mk (chunkPath i) (fst range) (snd range - fst range).

(** ** Words *)

(** A token: not empty, and free of white space. *)
Definition token_ok (tok : jsstring) : Prop :=
  tok <> [] /\ Forall (fun c => is_space c = false) tok.

(** The last code unit, if there is one, is no white space. *)
Definition ends_well (s : jsstring) : Prop :=
  forall d, last s = Some d -> is_space d = false.

(** The word of the [i]-th of [k] tokens of a segment under even
    subdivision: it spans
    [[start + i * slice, start + (i + 1) * slice)], shifted by the offset,
    where [slice] is the [k]-th part of the segment's duration. *)
Definition uniform_word (segment : DiarizedSegment.t) (offsetSec : number)
  (k i : nat) (token : jsstring) : TranscriptionWord.t :=
  let slice :=
    (DiarizedSegment.end_ segment - DiarizedSegment.start segment)
    / of_nat k in
  let from := DiarizedSegment.start segment + of_nat i * slice + offsetSec in
  let to :=
    DiarizedSegment.start segment + of_nat (i + 1) * slice + offsetSec in
  TranscriptionWord.mk token
    (Some (seconds_text from)) (Some (seconds_text to))
    (Some (toMMSS from)) (Some (toMMSS to))
    (Some (replace (lit "speaker_") [] (DiarizedSegment.speaker segment))).

(** A text of white space only, the empty text included. *)
Definition blank (text : jsstring) : bool := forallb is_space text.

(** The words of one segment, as the specification words them: none for a
    blank text; else the text is split at white space into tokens, and the
    [i]-th token gets the [i]-th slice of the uniform subdivision. *)
Definition segment_slices (offsetSec : number) (segment : DiarizedSegment.t)
  : list TranscriptionWord.t :=
  if blank (DiarizedSegment.text segment) then []
  else
    let tokens := split_spaces (trim (DiarizedSegment.text segment)) in
    imap (uniform_word segment offsetSec (length tokens)) tokens.

(** The merged word for a word of a transcription, at global times
    [from] and [to]. *)
Definition timed_word (word : jsstring) (from to : number)
  : TranscriptionWord.t :=
  TranscriptionWord.mk word
    (Some (seconds_text from)) (Some (seconds_text to))
    (Some (toMMSS from)) (Some (toMMSS to))
    (Some (lit "0")).

(** ** Dispatch and merge *)

(** The words a chunk brings to the merge: those of its transcription, or
    none when its call failed. *)
Definition chunk_words (service : Service) (chunk : ChunkInfo.t)
  : list TranscriptionWord.t :=
  match service (ChunkInfo.path chunk) with
  | Fulfilled result => extractWords result (ChunkInfo.startOffset chunk)
  | Rejected _ => []
  end.

(** The call for a chunk returned a result. *)
Definition transcribed (service : Service) (chunk : ChunkInfo.t) : bool :=
  match service (ChunkInfo.path chunk) with
  | Fulfilled _ => true
  | Rejected _ => false
  end.

(** Outcomes in ascending order of index, no index twice. *)
Definition ascending (results : list Outcome.t) : Prop :=
  StronglySorted (fun a b => (Outcome.index a < Outcome.index b)%nat) results.

(** Outcomes ordered as the comparator [by_index] asks. *)
Definition ordered (results : list Outcome.t) : Prop :=
  StronglySorted (fun a b => (by_index a b <= 0)%Z) results.

(** ** Example data *)

(** Example data: the lines ffmpeg writes for two silences and for a third
    one that is still open when the audio ends. *)
Definition example_log : jsstring :=
  lit "[silencedetect @ 0x55d] silence_start: 12.5"
  ++ 10%N :: lit "[silencedetect @ 0x55d] silence_end: 15.25 | silence_duration: 2.75"
  ++ 10%N :: lit "size=N/A time=00:00:20.00 bitrate=N/A speed= 400x"
  ++ 10%N :: lit "[silencedetect @ 0x55d] silence_start: 601"
  ++ 10%N :: lit "[silencedetect @ 0x55d] silence_end: 604.125 | silence_duration: 3.125"
  ++ 10%N :: lit "[silencedetect @ 0x55d] silence_start: 1198.75".

(** Example data: three chunks cut at 0, 100 and 250 of 300 seconds, and a
    service that knows the words of each, or fails on the second. *)
Definition example_chunks : list ChunkInfo.t :=
  snd (splitAudio (lit "audio.wav") [of_Z 0; of_Z 100; of_Z 250] (of_Z 300)).

Definition example_response (word : String.string) (from to : Z)
  : settled VerboseResponse.t :=
  Fulfilled (VerboseResponse.mk (lit word)
               (Some [TimedWord.mk (lit word) (of_Z from) (of_Z to)]) None).

Definition example_service (failing : bool) : Service :=
  fun path =>
    if bool_decide (path = chunkPath 0) then example_response "zero" 1 2
    else if bool_decide (path = chunkPath 1) then
      if failing then Rejected {| message := lit "timeout" |}
      else example_response "one" 3 4
    else example_response "two" 5 6.

(** The sum of a list of rationals. *)
Fixpoint Qsum (l : list Q) : Q :=
  match l with
  | [] => 0%Q
  | x :: r => (x + Qsum r)%Q
  end.

(** The digits of [toFixed] for the integer [n] of units in the last
    place: at least [f + 1] digits, with a point before the last [f]. *)
Definition fixed_of (f : nat) (n : Z) : jsstring :=
  let m := padStart (S f) 48%N (digits_of_Z n) in
  let k := length m in
  match f with
  | O => m
  | _ => take (k - f) m ++ 46%N :: drop (k - f) m
  end.

(** [P] holds of the [count] integers from [from] on. *)
Fixpoint all_from (P : Z -> bool) (count : nat) (from : Z) : bool :=
  match count with
  | O => true
  | S count' => P from && all_from P count' (from + 1)%Z
  end.

(** Two digits. *)
Definition two_digits (s : jsstring) : bool :=
  match s with
  | [a; b] => is_digit a && is_digit b
  | _ => false
  end.

(** Two digits, a point, three digits. *)
Definition seconds_digits (s : jsstring) : bool :=
  match s with
  | [c; d; p; e; f; g] =>
      (p =? 46)%N && forallb is_digit [c; d; e; f; g]
  | _ => false
  end.

(** The form [MM:SS.SSS]. *)
Definition clock_text (s : jsstring) : bool :=
  match s with
  | a :: b :: p :: r =>
      (p =? 58)%N && two_digits [a; b] && seconds_digits r
  | _ => false
  end.

(** Two words of one list next to each other. *)
Definition adjacent {A : Type} (l : list A) (x y : A) : Prop :=
  exists i, l !! i = Some x /\ l !! S i = Some y.


(** ** Scenes and speakers *)

(** No element is followed by an equal one. *)
Fixpoint no_repeat (l : list jsstring) : Prop :=
  match l with
  | x :: (y :: _) as r => x <> y /\ no_repeat r
  | _ => True
  end.

(** A time in seconds rounded to milliseconds, as [toFixed(3)] writes it. *)
Definition round_ms (q : Q) : Q :=
  (inject_Z (Qfloor (q * inject_Z 1000 + (1 # 2))) / inject_Z 1000)%Q.

(** A word without its clock texts. *)
Definition without_clock (w : TranscriptionWord.t) : TranscriptionWord.t :=
  TranscriptionWord.mk (TranscriptionWord.word w)
    (TranscriptionWord.startOffset w) (TranscriptionWord.endOffset w)
    None None (TranscriptionWord.speakerLabel w).

(** A text with something other than white space in it. *)
Definition has_text (text : jsstring) : Prop :=
  Exists (fun c => is_space c = false) text.

(** Membership in a list extended by one element. *)
Ltac in_snoc :=
  apply elem_of_app;
  first [ by left | right; by apply list_elem_of_singleton ].

(** Closing a comparison of two rational constants. *)
Ltac q_const := vm_compute; first [ reflexivity | discriminate ].

(** * Properties *)

(** ** Numbers *)

Section NumberFacts.

Lemma Qltb_lt (a b : Q) : Qltb a b = true <-> (a < b)%Q.
Proof.
  unfold Qltb. rewrite negb_true_iff, <- not_true_iff_false, Qle_bool_iff.
  split; [apply Qnot_le_lt | apply Qlt_not_le].
Qed.

Lemma Qltb_ge (a b : Q) : Qltb a b = false <-> (b <= a)%Q.
Proof.
  unfold Qltb. rewrite negb_false_iff. apply Qle_bool_iff.
Qed.

Lemma ltb_Fin (a b : Q) : (Fin a <? Fin b) = true <-> (a < b)%Q.
Proof. apply Qltb_lt. Qed.

Lemma leb_Fin (a b : Q) : (Fin a <=? Fin b) = true <-> (a <= b)%Q.
Proof. apply Qle_bool_iff. Qed.

End NumberFacts.

(** ** Strings: trimming, splitting on white space, replacing *)

Section StringFacts.

Lemma drop_while_all (p : N -> bool) (s : jsstring) :
  Forall (fun c => p c = true) s -> drop_while p s = [].
Proof. induction 1 as [| c s Hc _ IH]; simpl; [done | by rewrite Hc]. Qed.

Lemma drop_while_head (p : N -> bool) (s : jsstring) :
  match drop_while p s with
  | [] => Forall (fun c => p c = true) s
  | c :: _ => p c = false
  end.
Proof.
  induction s as [| c s IH]; simpl; [done |].
  destruct (p c) eqn:Hc; [| done].
  destruct (drop_while p s); [by constructor | done].
Qed.

Lemma drop_while_snoc (p : N -> bool) (s : jsstring) (c : N) :
  p c = false -> drop_while p (s ++ [c]) = drop_while p s ++ [c].
Proof.
  intros Hc. induction s as [| d s IH]; simpl; [by rewrite Hc |].
  by destruct (p d).
Qed.

Lemma trim_blank (s : jsstring) :
  Forall (fun c => is_space c = true) s -> trim s = [].
Proof.
  intros Hs. unfold trim, trimStart, trimEnd.
  rewrite (drop_while_all _ _ Hs). reflexivity.
Qed.

(** A text with a code unit that is no white space trims to a text that
    starts and ends with such a code unit. *)
Lemma trim_nonblank (s : jsstring) :
  Exists (fun c => is_space c = false) s ->
  exists c r, trim s = c :: r /\ is_space c = false
    /\ forall d, last (c :: r) = Some d -> is_space d = false.
Proof.
  intros Hs. unfold trim, trimStart, trimEnd.
  pose proof (drop_while_head is_space s) as Hhead.
  destruct (drop_while is_space s) as [| c r].
  - exfalso. apply Exists_exists in Hs as (c & Hin & Hc).
    rewrite Forall_forall in Hhead. rewrite (Hhead c Hin) in Hc. discriminate.
  - exists c. simpl. rewrite (drop_while_snoc _ _ _ Hhead), rev_app_distr. simpl.
    eexists. split; [done |]. split; [done |].
    intros d Hd.
    pose proof (drop_while_head is_space (rev r)) as Hr.
    destruct (drop_while is_space (rev r)) as [| e r']; simpl in Hd.
    + by injection Hd as <-.
    + change (c :: rev r' ++ [e]) with ((c :: rev r') ++ [e]) in Hd.
      rewrite last_snoc in Hd. by injection Hd as <-.
Qed.

Lemma ends_well_tail (c : N) (s : jsstring) :
  ends_well (c :: s) -> ends_well s.
Proof.
  unfold ends_well. intros H d Hd. apply H.
  destruct s; [done | exact Hd].
Qed.

Lemma split_spaces_from_ok (s : jsstring) :
  forall (in_sep : bool) (cur : jsstring),
    ends_well s ->
    (if in_sep then cur = [] /\ s <> []
     else cur <> [] /\ Forall (fun c => is_space c = false) cur) ->
    Forall token_ok (split_spaces_from in_sep cur s).
Proof.
  induction s as [| c r IH]; intros in_sep cur Hend Hst; simpl.
  - destruct in_sep; [by destruct Hst |].
    destruct Hst as [Hne Hfree]. constructor; [| done]. split.
    + intros Hrev. apply Hne. by rewrite <- (rev_involutive cur), Hrev.
    + by apply List.Forall_rev.
  - assert (is_space c = true -> r <> []) as Hr.
    { intros Hc ->. specialize (Hend c eq_refl). congruence. }
    destruct (is_space c) eqn:Hc.
    + destruct in_sep.
      * apply IH; [by eapply ends_well_tail |]. destruct Hst. auto.
      * destruct Hst as [Hne Hfree]. constructor.
        -- split.
           ++ intros Hrev. apply Hne. by rewrite <- (rev_involutive cur), Hrev.
           ++ by apply List.Forall_rev.
        -- apply IH; [by eapply ends_well_tail | auto].
    + apply IH; [by eapply ends_well_tail |]. split; [done |].
      constructor; [done |]. destruct in_sep; [| by destruct Hst].
      destruct Hst as [-> _]. done.
Qed.

Lemma split_spaces_trimmed (c : N) (r : jsstring) :
  is_space c = false -> ends_well (c :: r) ->
  Forall token_ok (split_spaces (c :: r)).
Proof.
  intros Hc Hend. unfold split_spaces. simpl. rewrite Hc.
  apply split_spaces_from_ok; [by eapply ends_well_tail |].
  split; [done | by repeat constructor].
Qed.

Lemma starts_with_app (p s : jsstring) : starts_with p (p ++ s) = true.
Proof. induction p as [| a p IH]; simpl; [done | by rewrite N.eqb_refl]. Qed.

Lemma replace_unfold (pat rep s : jsstring) :
  replace pat rep s
  = if starts_with pat s then rep ++ drop (length pat) s
    else match s with
         | [] => []
         | c :: r => c :: replace pat rep r
         end.
Proof. by destruct s. Qed.

(** Replacing a pattern that the string starts with takes that prefix off. *)
Lemma replace_prefix (pat rep rest : jsstring) :
  replace pat rep (pat ++ rest) = rep ++ rest.
Proof. by rewrite replace_unfold, starts_with_app, drop_app_length. Qed.

(** Only the first occurrence is replaced. *)
Lemma replace_first (pat rep pre post : jsstring) :
  (forall i, (i < length pre)%nat ->
     starts_with pat (drop i (pre ++ pat ++ post)) = false) ->
  replace pat rep (pre ++ pat ++ post) = pre ++ rep ++ post.
Proof.
  induction pre as [| c pre IH]; intros Hfirst.
  - exact (replace_prefix pat rep post).
  - pose proof (Hfirst 0%nat ltac:(simpl; lia)) as H0.
    change ((c :: pre) ++ pat ++ post) with (c :: (pre ++ pat ++ post)) in *.
    rewrite replace_unfold. change (drop 0 ?l) with l in H0. rewrite H0.
    change ((c :: pre) ++ rep ++ post) with (c :: (pre ++ rep ++ post)).
    f_equal. apply IH. intros i Hi.
    apply (Hfirst (S i)). simpl. lia.
Qed.

(** A string without the pattern is left as it is. *)
Lemma replace_absent (pat rep s : jsstring) :
  (forall i, (i <= length s)%nat -> starts_with pat (drop i s) = false) ->
  replace pat rep s = s.
Proof.
  induction s as [| c s IH]; intros Habs.
  - pose proof (Habs 0%nat ltac:(simpl; lia)) as H0.
    rewrite replace_unfold. change (drop 0 ?l) with l in H0. by rewrite H0.
  - pose proof (Habs 0%nat ltac:(simpl; lia)) as H0.
    rewrite replace_unfold. change (drop 0 ?l) with l in H0. rewrite H0.
    f_equal. apply IH. intros i Hi. apply (Habs (S i)). simpl. lia.
Qed.

End StringFacts.

(** ** Seconds as text *)

Section Rendering.

Lemma digits_value_acc (d : Decimal.uint) :
  forall acc : positive,
    digits_value (Npos acc) (digits_of_uint d) = Npos (Pos.of_uint_acc d acc).
Proof.
  induction d as [| d IH | d IH | d IH | d IH | d IH | d IH | d IH | d IH
                  | d IH | d IH]; intros acc;
    cbn [digits_of_uint digits_value Pos.of_uint_acc]; [done | ..];
    rewrite <- IH; f_equal; lia.
Qed.

Lemma digits_value_uint (d : Decimal.uint) :
  digits_value 0 (digits_of_uint d) = N.of_uint d.
Proof.
  unfold N.of_uint.
  induction d as [| d IH | d IH | d IH | d IH | d IH | d IH | d IH | d IH
                  | d IH | d IH];
    cbn [digits_of_uint digits_value Pos.of_uint]; [done | done | ..];
    apply digits_value_acc.
Qed.

Lemma digits_value_of_N (n : N) : digits_value 0 (digits_of_N n) = n.
Proof.
  unfold digits_of_N. rewrite digits_value_uint. apply Unsigned.of_to.
Qed.

Lemma digits_of_uint_digits (d : Decimal.uint) :
  Forall (fun c => is_digit c = true) (digits_of_uint d).
Proof. induction d; simpl; by constructor. Qed.

Lemma digits_value_zeros (k : nat) (s : jsstring) :
  digits_value 0 (replicate k 48%N ++ s) = digits_value 0 s.
Proof. induction k as [| k IH]; [done |]. simpl. exact IH. Qed.

Lemma take_while_all (p : N -> bool) (s : jsstring) :
  Forall (fun c => p c = true) s -> take_while p s = s.
Proof. induction 1 as [| c s Hc _ IH]; simpl; [done |]. by rewrite Hc, IH. Qed.

Lemma take_while_stop (p : N -> bool) (l r : jsstring) (c : N) :
  Forall (fun c => p c = true) l -> p c = false ->
  take_while p (l ++ c :: r) = l.
Proof.
  intros Hl Hc. induction Hl as [| d l Hd _ IH]; simpl; [by rewrite Hc |].
  by rewrite Hd, IH.
Qed.

Lemma drop_while_stop (p : N -> bool) (l r : jsstring) (c : N) :
  Forall (fun c => p c = true) l -> p c = false ->
  drop_while p (l ++ c :: r) = c :: r.
Proof.
  intros Hl Hc. induction Hl as [| d l Hd _ IH]; simpl; [by rewrite Hc |].
  by rewrite Hd.
Qed.

Lemma is_digit_cases (c : N) :
  is_digit c = true ->
  (c = 48 \/ c = 49 \/ c = 50 \/ c = 51 \/ c = 52 \/ c = 53 \/ c = 54
   \/ c = 55 \/ c = 56 \/ c = 57)%N.
Proof.
  unfold is_digit. rewrite andb_true_iff, !N.leb_le. lia.
Qed.

(** A text that starts with a digit is read as an unsigned literal. *)
Lemma parseFloat_digit (c : N) (r : jsstring) :
  is_digit c = true ->
  parseFloat (c :: r)
  = match parse_unsigned (c :: r) with
    | Some q => Fin q
    | None => NaN
    end.
Proof.
  intros Hc. apply is_digit_cases in Hc.
  destruct Hc as [-> | [-> | [-> | [-> | [-> | [-> | [-> | [-> | [-> | ->]]]]]]]]];
    reflexivity.
Qed.

(** The value read from digits, a point and digits. *)
Lemma parse_unsigned_point (ip fp : jsstring) :
  ip <> [] ->
  Forall (fun c => is_digit c = true) ip ->
  Forall (fun c => is_digit c = true) fp ->
  parse_unsigned (ip ++ 46%N :: fp)
  = Some (Qred (inject_Z (Z.of_N (digits_value 0 (ip ++ fp)))
                / inject_Z (10 ^ Z.of_nat (length fp))
                * 1)).
Proof.
  intros Hne Hip Hfp. unfold parse_unsigned.
  rewrite (take_while_stop is_digit ip fp 46%N Hip eq_refl).
  rewrite (drop_while_stop is_digit ip fp 46%N Hip eq_refl).
  rewrite (take_while_all _ _ Hfp), (drop_while_all _ _ Hfp).
  destruct ip as [| c ip]; [done |]. by destruct fp.
Qed.

Lemma replace_suffix_s (body : jsstring) :
  Forall (fun c => is_digit_or_dot c = true) body ->
  replace (lit "s") [] (body ++ lit "s") = body.
Proof.
  intros Hbody.
  rewrite <- (app_nil_r (body ++ lit "s")), <- app_assoc.
  rewrite (replace_first (lit "s") [] body []); [by rewrite app_nil_r |].
  intros i Hi. destruct (lookup_lt_is_Some_2 body i Hi) as [c Hc].
  rewrite (drop_S (body ++ lit "s" ++ []) c i);
    [| by rewrite lookup_app_l].
  rewrite Forall_lookup in Hbody. specialize (Hbody i c Hc).
  destruct (N.eq_dec 115%N c) as [<- | Hne]; [discriminate Hbody |].
  change (lit "s") with [115%N]. cbn [starts_with].
  by rewrite (proj2 (N.eqb_neq 115%N c) Hne).
Qed.

End Rendering.

Section ReadBack.

Lemma fixed_digits_shape (q : Q) :
  (0 <= q)%Q ->
  exists ip fp,
    fixed_digits 3 q = ip ++ 46%N :: fp
    /\ ip <> []
    /\ Forall (fun c => is_digit c = true) ip
    /\ Forall (fun c => is_digit c = true) fp
    /\ length fp = 3%nat
    /\ Z.of_N (digits_value 0 (ip ++ fp))
       = Qfloor (q * inject_Z 1000 + (1 # 2)).
Proof.
  intros Hq. unfold fixed_digits.
  change (inject_Z (10 ^ Z.of_nat 3)) with (inject_Z 1000).
  set (n := Qfloor (q * inject_Z 1000 + (1 # 2))).
  assert (0 <= n)%Z as Hn.
  { change 0%Z with (Qfloor 0). apply Qfloor_resp_le.
    change (inject_Z 1000) with 1000%Q. lra. }
  unfold digits_of_Z. rewrite (proj2 (Z.ltb_ge n 0) Hn).
  set (m := padStart 4 48%N (digits_of_N (Z.to_N n))).
  assert (Forall (fun c => is_digit c = true) m) as Hm.
  { unfold m, padStart. apply Forall_app. split.
    - apply Forall_replicate. reflexivity.
    - apply digits_of_uint_digits. }
  assert (4 <= length m)%nat as Hlen.
  { unfold m, padStart. rewrite length_app, length_replicate. lia. }
  exists (take (length m - 3) m), (drop (length m - 3) m).
  split; [done |]. split.
  - intros Hnil. apply (f_equal length) in Hnil.
    rewrite length_take in Hnil. simpl in Hnil. lia.
  - split; [by apply Forall_take |]. split; [by apply Forall_drop |].
    split; [rewrite length_drop; lia |].
    rewrite take_drop. unfold m, padStart.
    rewrite digits_value_zeros, digits_value_of_N. by apply Z2N.id.
Qed.

(** What [parseOffset] reads from the seconds text of a number that is not
    negative: the nearest multiple of a millisecond (the upper one on a
    tie). *)
Lemma parseOffset_seconds_text (q : Q) :
  (0 <= q)%Q ->
  exists v,
    parseOffset (Some (seconds_text (Fin q))) = Fin v
    /\ (v == inject_Z (Qfloor (q * inject_Z 1000 + (1 # 2))) / inject_Z 1000)%Q.
Proof.
  intros Hq. unfold seconds_text, toFixed.
  rewrite (proj2 (Qltb_ge q 0) Hq).
  destruct (fixed_digits_shape q Hq)
    as (ip & fp & -> & Hne & Hip & Hfp & Hlen & Hval).
  destruct ip as [| c ip]; [done |].
  assert (Forall (fun c => is_digit_or_dot c = true) ((c :: ip) ++ 46%N :: fp))
    as Hbody.
  { apply Forall_app. split; [| constructor; [done |]].
    - apply (Forall_impl _ _ _ Hip). intros d Hd. unfold is_digit_or_dot.
      by rewrite Hd.
    - apply (Forall_impl _ _ _ Hfp). intros d Hd. unfold is_digit_or_dot.
      by rewrite Hd. }
  change (parseOffset (Some (((c :: ip) ++ 46%N :: fp) ++ lit "s")))
    with (parseFloat (replace (lit "s") []
                        (((c :: ip) ++ 46%N :: fp) ++ lit "s"))).
  rewrite (replace_suffix_s _ Hbody).
  change ((c :: ip) ++ 46%N :: fp) with (c :: (ip ++ 46%N :: fp)).
  rewrite parseFloat_digit by (by apply Forall_cons in Hip as [Hc _]).
  change (c :: (ip ++ 46%N :: fp)) with ((c :: ip) ++ 46%N :: fp).
  rewrite (parse_unsigned_point (c :: ip) fp Hne Hip Hfp).
  eexists. split; [reflexivity |].
  rewrite Qred_correct, Hval, Hlen.
  change (inject_Z (10 ^ Z.of_nat 3)) with (inject_Z 1000). lra.
Qed.

(** The seconds text loses nothing at the resolution of a millisecond, and
    at most half a millisecond otherwise. *)
Lemma seconds_text_read_back (q : Q) :
  (0 <= q)%Q ->
  exists v,
    parseOffset (Some (seconds_text (Fin q))) = Fin v
    /\ (Qabs (v - q) <= 1 # 2000)%Q
    /\ forall m : Z, (q == inject_Z m / inject_Z 1000)%Q -> (v == q)%Q.
Proof.
  intros Hq. destruct (parseOffset_seconds_text q Hq) as (v & Hv & Hval).
  exists v. split; [done |].
  pose proof (Qfloor_le (q * inject_Z 1000 + (1 # 2))) as Hlo.
  pose proof (Qlt_floor (q * inject_Z 1000 + (1 # 2))) as Hhi.
  set (n := Qfloor (q * inject_Z 1000 + (1 # 2))) in *.
  rewrite inject_Z_plus in Hhi.
  change (inject_Z 1000) with 1000%Q in *. change (inject_Z 1) with 1%Q in *.
  unfold Qdiv in *. change (/ 1000)%Q with (1 # 1000)%Q in *.
  split.
  - apply Qabs_Qle_condition. rewrite Hval. split; lra.
  - intros m Hm. rewrite Hval.
    assert (n = m) as ->; [| by rewrite Hm].
    assert (inject_Z n < inject_Z (m + 1))%Q as H1.
    { rewrite inject_Z_plus. change (inject_Z 1) with 1%Q.
      rewrite Hm in Hlo. lra. }
    assert (inject_Z m < inject_Z (n + 1))%Q as H2.
    { rewrite inject_Z_plus. change (inject_Z 1) with 1%Q.
      rewrite Hm in Hhi. lra. }
    rewrite <- Zlt_Qlt in H1, H2. lia.
Qed.

End ReadBack.

(** ** Silence detector *)

Section Detector.

Lemma detect_line_classify (silences : list Silence.t)
  (currentStart : option number) (line : jsstring) :
  detect_line (silences, currentStart) line
  = match classify line with
    | StartMarker v => (silences, Some v)
    | EndMarker e =>
        match currentStart with
        | Some s => (silences ++ [Silence.mk s e], None)
        | None => (silences, None)
        end
    | NoMarker => (silences, currentStart)
    end.
Proof.
  unfold detect_line, classify.
  destruct (match_marker silence_start_marker line); [done |].
  destruct (match_marker silence_end_marker line); [| done].
  by destruct currentStart.
Qed.

Lemma detect_lines_pairs (lines : list jsstring) :
  forall (silences : list Silence.t) (currentStart : option number),
    fst (fold_left detect_line lines (silences, currentStart))
    = silences ++ matched_pairs currentStart (classify <$> lines).
Proof.
  induction lines as [| line lines IH]; intros silences currentStart.
  - simpl. by rewrite app_nil_r.
  - cbn [fold_left]. rewrite detect_line_classify, fmap_cons.
    cbn [matched_pairs].
    destruct (classify line) as [v | e |]; [apply IH | | apply IH].
    destruct currentStart as [s|]; rewrite IH; [| done].
    by rewrite <- app_assoc.
Qed.

Lemma matched_pairs_markers (ms : list marker) (open : option number) :
  matched_pairs open ms = matched_pairs open (filter is_marker ms).
Proof.
  revert open. induction ms as [| m ms IH]; intros open; [done |].
  rewrite filter_cons. destruct m as [v | e |]; simpl.
  - apply IH.
  - destruct open; by rewrite IH.
  - apply IH.
Qed.

Lemma matched_pairs_complete (pairs : list (number * number))
  (v : option number) :
  matched_pairs None (markers_of_pairs pairs ++ trailing_start v)
  = silence_of_pair <$> pairs.
Proof.
  unfold markers_of_pairs. induction pairs as [| [s e] pairs IH].
  - by destruct v.
  - rewrite !fmap_cons. cbn [concat app matched_pairs fst snd].
    by rewrite IH.
Qed.

Lemma split_char_from_plain (sep : N) (cur line : jsstring) :
  sep ∉ line -> split_char_from sep cur line = [rev cur ++ line].
Proof.
  revert cur. induction line as [| c line IH]; intros cur Hsep; simpl.
  - by rewrite app_nil_r.
  - apply not_elem_of_cons in Hsep as [Hc Hsep].
    rewrite (proj2 (N.eqb_neq c sep)) by done.
    rewrite IH by done. simpl. by rewrite <- app_assoc.
Qed.

Lemma split_char_from_last (sep : N) (text line : jsstring) :
  sep ∉ line ->
  forall cur,
    split_char_from sep cur (text ++ sep :: line)
    = split_char_from sep cur text ++ [line].
Proof.
  intros Hsep. induction text as [| c text IH]; intros cur; simpl.
  - rewrite N.eqb_refl. by rewrite split_char_from_plain.
  - destruct (c =? sep)%N; [| apply IH]. by rewrite IH.
Qed.

End Detector.

(** For the markers that the expressions of [detectSilences] match, the
    parser gives one interval for each start marker closed by an end
    marker: a log whose matched markers are pairs of a start and an end,
    with or without one more start after the last pair, gives exactly these
    pairs, and a last line with a start marker adds nothing to what the
    lines before it give. *)
Theorem detectSilences_pairs :
  (forall text,
     detectSilences text
     = matched_pairs None (classify <$> split_char 10%N text))
  /\ (forall text pairs open,
        filter is_marker (classify <$> split_char 10%N text)
        = markers_of_pairs pairs ++ trailing_start open ->
        detectSilences text = silence_of_pair <$> pairs)
  /\ (forall text line v,
        10%N ∉ line -> classify line = StartMarker v ->
        detectSilences (text ++ 10%N :: line) = detectSilences text).
Proof.
  split; [| split].
  - intros text. unfold detectSilences. by rewrite detect_lines_pairs.
  - intros text pairs open Hms. unfold detectSilences.
    rewrite detect_lines_pairs, matched_pairs_markers, Hms.
    apply matched_pairs_complete.
  - intros text line v Hline Hstart. unfold detectSilences, split_char.
    rewrite split_char_from_last by done.
    rewrite fold_left_app. cbn [fold_left].
    destruct (fold_left detect_line _ _) as [silences currentStart].
    by rewrite detect_line_classify, Hstart.
Qed.

Lemma detectSilences_pairs_witness :
  filter is_marker (classify <$> split_char 10%N example_log)
  = markers_of_pairs [(Fin (25 # 2), Fin (61 # 4)); (of_Z 601, Fin (4833 # 8))]
    ++ trailing_start (Some (Fin (4795 # 4)))
  /\ detectSilences example_log
     = [Silence.mk (Fin (25 # 2)) (Fin (61 # 4));
        Silence.mk (of_Z 601) (Fin (4833 # 8))].
Proof.
  assert (filter is_marker (classify <$> split_char 10%N example_log)
          = markers_of_pairs
              [(Fin (25 # 2), Fin (61 # 4)); (of_Z 601, Fin (4833 # 8))]
            ++ trailing_start (Some (Fin (4795 # 4)))) as Hms
    by (vm_compute; reflexivity).
  split; [exact Hms |].
  apply (proj1 (proj2 detectSilences_pairs) example_log
           [(Fin (25 # 2), Fin (61 # 4)); (of_Z 601, Fin (4833 # 8))]
           (Some (Fin (4795 # 4))) Hms).
Defined.

(** The log of the example: two intervals, the open start left out. *)
Example detectSilences_example_log :
  detectSilences example_log
  = [Silence.mk (Fin (25 # 2)) (Fin (61 # 4));
     Silence.mk (of_Z 601) (Fin (4833 # 8))].
Proof. vm_compute. reflexivity. Qed.

(** C9.  The code misses a case of the claim, on a log that ffmpeg writes.
    A silence that begins with the audio is logged with a start just below
    zero, and the expression [/silence_start:\s*([\d.]+)/] takes digits and
    points only: the line with the signed start matches nothing, the end
    marker after it finds no start open, and the pair gives no interval.
    Of two complete pairs of markers, the first starting at -0.0213, only
    the second comes out, where the claim asks for both. *)
Theorem detectSilences_signed_pair_lost :
  classify (lit "[silencedetect @ 0x55d] silence_start: -0.0213") = NoMarker
  /\ detectSilences
       (lit "[silencedetect @ 0x55d] silence_start: -0.0213"
        ++ 10%N
        :: lit "[silencedetect @ 0x55d] silence_end: 2.5 | silence_duration: 2.5213"
        ++ 10%N
        :: lit "[silencedetect @ 0x55d] silence_start: 10"
        ++ 10%N
        :: lit "[silencedetect @ 0x55d] silence_end: 12.5 | silence_duration: 2.5")
     = [Silence.mk (of_Z 10) (Fin (25 # 2))]
  /\ [Silence.mk (of_Z 10) (Fin (25 # 2))]
     <> [Silence.mk (Fin (- (213 # 10000))) (Fin (5 # 2));
         Silence.mk (of_Z 10) (Fin (25 # 2))].
Proof. split; [| split]; [vm_compute; reflexivity .. | discriminate]. Qed.

(** A marker is what the script's regular expression matches: the word, a
    colon, white space, then digits and points.  A value with a sign is not
    matched, so such a start opens nothing and the end after it gives no
    interval; of a value with an exponent only the digits before the
    exponent are read. *)
Example detectSilences_signed_start :
  classify (lit "[silencedetect @ 0x55d] silence_start: -0.0213") = NoMarker
  /\ detectSilences
       (lit "[silencedetect @ 0x55d] silence_start: -0.0213"
        ++ 10%N :: lit "[silencedetect @ 0x55d] silence_end: 2.5") = []
  /\ classify (lit "silence_start: 6.25e-05") = StartMarker (Fin (25 # 4)).
Proof. repeat split; vm_compute; reflexivity. Qed.

(** ** Split planner *)

Section Planner.

Variable silences : list Silence.t.

Lemma in_window_Fin (t w : Q) (s : Silence.t) :
  in_window (Fin t) (Fin w) s = true
  <-> exists p, Silence.start s = Fin p /\ (t - w <= p /\ p <= t + w)%Q.
Proof.
  unfold in_window, geb. rewrite andb_true_iff.
  destruct (Silence.start s) as [p| | |]; simpl.
  - rewrite !Qle_bool_iff. split.
    + intros [H1 H2]. exists p. repeat split; [| done]. by unfold Qminus.
    + intros (p' & [= <-] & H1 & H2). by split.
  - split; [intros [_ [=]] | intros (? & [=] & _)].
  - split; [intros [[=] _] | intros (? & [=] & _)].
  - split; [intros [[=] _] | intros (? & [=] & _)].
Qed.

Lemma distance_to_Fin (t p : Q) (s : Silence.t) :
  Silence.start s = Fin p -> distance_to (Fin t) s = Fin (Qabs (p - t)).
Proof. unfold distance_to. by intros ->. Qed.

Lemma in_window_mono (t w w' : Q) (s : Silence.t) :
  (w <= w')%Q ->
  in_window (Fin t) (Fin w) s = true -> in_window (Fin t) (Fin w') s = true.
Proof.
  intros Hw. rewrite !in_window_Fin. intros (p & Hp & H1 & H2).
  exists p. split; [done |]. split; lra.
Qed.

Lemma scan_snoc (target window : number) (l : list Silence.t)
  (x : Silence.t) (st : best_state) :
  scan (l ++ [x]) target window st
  = consider target window (scan l target window st) x.
Proof. unfold scan. by rewrite fold_left_app. Qed.

Lemma consider_best (t w : Q) (seen : list Silence.t) (st : best_state)
  (x : Silence.t) :
  best_of (Fin t) (Fin w) seen st ->
  best_of (Fin t) (Fin w) (seen ++ [x]) (consider (Fin t) (Fin w) st x).
Proof.
  unfold best_of, consider, candidate. intros Hst.
  fold (distance_to (Fin t) x).
  destruct (in_window (Fin t) (Fin w) x) eqn:Hx.
  - pose proof Hx as Hx'. apply in_window_Fin in Hx' as (p & Hp & _).
    destruct st as [[b|] d]; cbn [fst snd] in *.
    + destruct Hst as ((Hb & Hbw) & -> & Hmin).
      pose proof Hbw as Hbw'. apply in_window_Fin in Hbw' as (q & Hq & _).
      rewrite (distance_to_Fin t p x Hp), (distance_to_Fin t q b Hq).
      destruct (Fin (Qabs (p - t)) <? Fin (Qabs (q - t))) eqn:Hlt; simpl.
      * repeat split; [in_snoc | done | by rewrite (distance_to_Fin t p x Hp) |].
        intros s [Hs Hsw]. rewrite (distance_to_Fin t p x Hp).
        apply elem_of_app in Hs as [Hs | Hs%list_elem_of_singleton].
        -- specialize (Hmin s (conj Hs Hsw)).
           apply in_window_Fin in Hsw as (r & Hr & _).
           rewrite (distance_to_Fin t r s Hr).
           rewrite (distance_to_Fin t q b Hq), (distance_to_Fin t r s Hr) in Hmin.
           apply ltb_Fin in Hlt. apply leb_Fin in Hmin. apply leb_Fin. lra.
        -- subst s. rewrite (distance_to_Fin t p x Hp). apply leb_Fin. lra.
      * repeat split; [in_snoc | done | by rewrite (distance_to_Fin t q b Hq) |].
        intros s [Hs Hsw]. rewrite (distance_to_Fin t q b Hq).
        apply elem_of_app in Hs as [Hs | Hs%list_elem_of_singleton].
        -- specialize (Hmin s (conj Hs Hsw)).
           by rewrite (distance_to_Fin t q b Hq) in Hmin.
        -- subst s. rewrite (distance_to_Fin t p x Hp). apply leb_Fin.
           apply Qltb_ge in Hlt. lra.
    + destruct Hst as ([= ->] & Hnone).
      rewrite (distance_to_Fin t p x Hp). simpl.
      repeat split; [in_snoc | done | by rewrite (distance_to_Fin t p x Hp) |].
      intros s [Hs Hsw]. 
      apply elem_of_app in Hs as [Hs | Hs%list_elem_of_singleton].
      * rewrite (Hnone s Hs) in Hsw. discriminate.
      * subst s. rewrite (distance_to_Fin t p x Hp). apply leb_Fin. lra.
  - destruct st as [[b|] d]; cbn [fst snd] in *.
    + destruct Hst as ((Hb & Hbw) & -> & Hmin).
      repeat split; [in_snoc | done |].
      intros s [Hs Hsw].
      apply elem_of_app in Hs as [Hs | Hs%list_elem_of_singleton].
      * by apply Hmin.
      * subst s. rewrite Hx in Hsw. discriminate.
    + destruct Hst as (Hd & Hnone). split; [done |].
      intros s Hs.
      apply elem_of_app in Hs as [Hs | Hs%list_elem_of_singleton].
      * by apply Hnone.
      * by subst s.
Qed.

Lemma scan_best (t w : Q) :
  best_of (Fin t) (Fin w) silences (scan silences (Fin t) (Fin w) no_best).
Proof.
  induction silences as [| x l IH] using rev_ind.
  - simpl. split; [done |]. intros s Hs. by apply elem_of_nil in Hs.
  - rewrite scan_snoc. by apply consider_best.
Qed.

End Planner.

Section WindowSearch.

Variable silences : list Silence.t.

Lemma consider_cases (target window : number) (st : best_state)
  (x : Silence.t) :
  consider target window st x = st
  \/ fst (consider target window st x) = Some x.
Proof.
  unfold consider. destruct (in_window target window x); [| by left].
  destruct (_ <? snd st); [by right | by left].
Qed.

Lemma scan_keeps_best (l : list Silence.t) (target window : number)
  (st : best_state) :
  is_Some (fst st) -> is_Some (fst (scan l target window st)).
Proof.
  revert st. induction l as [| x l IH]; intros st Hst; [done |].
  unfold scan. simpl. apply IH.
  destruct (consider_cases target window st x) as [-> | ->]; [done | eauto].
Qed.

Lemma scan_none (l : list Silence.t) (target window : number)
  (st : best_state) :
  fst (scan l target window st) = None -> scan l target window st = st.
Proof.
  revert st. induction l as [| x l IH]; intros st Hnone; [done |].
  unfold scan in *. simpl in *. rewrite (IH _ Hnone).
  destruct (consider_cases target window st x) as [-> | Hx]; [done |].
  pose proof (scan_keeps_best l target window
                (consider target window st x)) as Hk.
  unfold scan in Hk. rewrite Hx, Hnone in Hk.
  destruct Hk as [? [=]]. eauto.
Qed.

Lemma window_loop_done (fuel : nat) (target window : number)
  (st : best_state) :
  is_Some (fst st) -> window_loop fuel silences target window st = Some st.
Proof.
  intros Hst. destruct fuel; simpl;
    by rewrite (bool_decide_eq_true_2 _ Hst), andb_false_r.
Qed.

Lemma window_loop_past (fuel : nat) (target window : number)
  (st : best_state) :
  (window <=? of_Z 180) = false ->
  window_loop fuel silences target window st = Some st.
Proof. intros Hw. destruct fuel; simpl; by rewrite Hw. Qed.

Lemma window_loop_step (fuel : nat) (target window : number) :
  (window <=? of_Z 180) = true ->
  window_loop (S fuel) silences target window no_best
  = if bool_decide (is_Some (fst (scan silences target window no_best)))
    then Some (scan silences target window no_best)
    else window_loop fuel silences target (window + of_Z 30) no_best.
Proof.
  intros Hw. simpl. rewrite Hw. simpl.
  case_bool_decide as Hfound.
  - by apply window_loop_done.
  - rewrite scan_none; [done |].
    destruct (fst (scan silences target window no_best)); [| done].
    exfalso. apply Hfound. eauto.
Qed.

(** The window loop, with seven units of fuel, always ends, and what it
    leaves is the scan of the first of the windows 30, ..., 180 that finds
    a silence. *)
Lemma search_windows_first (target : number) :
  search_windows silences target
  = Some (first_window silences target (window_of <$> seq 1 6)).
Proof.
  unfold search_windows.
  change (window_of <$> seq 1 6)
    with [of_Z 30; of_Z 60; of_Z 90; of_Z 120; of_Z 150; of_Z 180].
  rewrite window_loop_step by reflexivity. cbn [first_window].
  case_bool_decide; [done |]. change (of_Z 30 + of_Z 30) with (of_Z 60).
  rewrite window_loop_step by reflexivity.
  case_bool_decide; [done |]. change (of_Z 60 + of_Z 30) with (of_Z 90).
  rewrite window_loop_step by reflexivity.
  case_bool_decide; [done |]. change (of_Z 90 + of_Z 30) with (of_Z 120).
  rewrite window_loop_step by reflexivity.
  case_bool_decide; [done |]. change (of_Z 120 + of_Z 30) with (of_Z 150).
  rewrite window_loop_step by reflexivity.
  case_bool_decide; [done |]. change (of_Z 150 + of_Z 30) with (of_Z 180).
  rewrite window_loop_step by reflexivity.
  case_bool_decide; [done |].
  by rewrite window_loop_past.
Qed.

Lemma first_window_hit (target : number) (pre post : list number)
  (w : number) :
  (forall w', w' ∈ pre -> fst (scan silences target w' no_best) = None) ->
  is_Some (fst (scan silences target w no_best)) ->
  first_window silences target (pre ++ w :: post)
  = scan silences target w no_best.
Proof.
  intros Hpre Hw. induction pre as [| w' pre IH]; simpl.
  - by rewrite (bool_decide_eq_true_2 _ Hw).
  - rewrite bool_decide_eq_false_2.
    + apply IH. intros w'' Hin. apply Hpre. by right.
    + rewrite (Hpre w'); [by intros [? [=]] | by left].
Qed.

Lemma first_window_miss (target : number) (ws : list number) :
  (forall w, w ∈ ws -> fst (scan silences target w no_best) = None) ->
  first_window silences target ws = no_best.
Proof.
  intros Hws. induction ws as [| w ws IH]; [done |]. simpl.
  rewrite bool_decide_eq_false_2.
  - apply IH. intros w' Hin. apply Hws. by right.
  - rewrite (Hws w); [by intros [? [=]] | by left].
Qed.

Lemma first_window_cases (target : number) (ws : list number) :
  first_window silences target ws = no_best
  \/ exists w, w ∈ ws
       /\ first_window silences target ws = scan silences target w no_best
       /\ is_Some (fst (scan silences target w no_best)).
Proof.
  induction ws as [| w ws IH]; [by left |]. simpl.
  case_bool_decide as Hw.
  - right. exists w. split; [by left | done].
  - destruct IH as [IH | (w' & Hin & Heq & Hs)]; [by left |].
    right. exists w'. split; [by right | done].
Qed.

End WindowSearch.

Section TargetLoop.

Variable silences : list Silence.t.

Lemma window_of_cases (w : number) :
  w ∈ window_of <$> seq 1 6 ->
  exists q, w = Fin q /\ (q <= 180)%Q.
Proof.
  intros Hw. apply list_elem_of_fmap in Hw as (j & -> & Hj).
  apply elem_of_seq in Hj.
  assert (j = 1 \/ j = 2 \/ j = 3 \/ j = 4 \/ j = 5 \/ j = 6)%nat
    as [-> | [-> | [-> | [-> | [-> | ->]]]]] by lia;
    eexists; (split; [reflexivity |]); by vm_compute.
Qed.

Lemma planned_offset_near (t : Q) :
  exists p, planned_offset silences (Fin t) = Fin p
            /\ (t - 180 <= p /\ p <= t + 180)%Q.
Proof.
  unfold planned_offset.
  destruct (first_window_cases silences (Fin t) (window_of <$> seq 1 6))
    as [-> | (w & Hw & -> & Hsome)].
  - exists t. split; [done |]. split; lra.
  - apply window_of_cases in Hw as (q & -> & Hq).
    pose proof (scan_best silences t q) as Hbest. unfold best_of in Hbest.
    unfold chosen.
    destruct (fst (scan silences (Fin t) (Fin q) no_best)) as [b|];
      [| by destruct Hsome].
    destruct Hbest as ((_ & Hin) & _).
    apply in_window_Fin in Hin as (p & Hp & H1 & H2).
    exists p. split; [done |]. split; lra.
Qed.

Lemma target_loop_unfold (totalDuration chunkSec target : number)
  (fuel : nat) (splits : list number) :
  target_loop fuel silences totalDuration chunkSec target splits
  = if target <? totalDuration then
      match fuel with
      | O => None
      | S fuel' =>
          st ← search_windows silences target;
          target_loop fuel' silences totalDuration chunkSec
            (target + chunkSec) (splits ++ [chosen st target])
      end
    else Some splits.
Proof. by destruct fuel. Qed.

Lemma target_loop_step (totalDuration chunkSec target : number)
  (fuel : nat) (splits : list number) :
  (target <? totalDuration) = true ->
  target_loop (S fuel) silences totalDuration chunkSec target splits
  = target_loop fuel silences totalDuration chunkSec (target + chunkSec)
      (splits ++ [planned_offset silences target]).
Proof.
  intros Hlt. rewrite target_loop_unfold, Hlt, search_windows_first. done.
Qed.

Lemma target_loop_plan (totalDuration chunkSec : number) (fuel : nat) :
  forall (target : number) (splits plan : list number),
    target_loop fuel silences totalDuration chunkSec target splits = Some plan ->
    exists rest,
      plan = splits ++ rest
      /\ (forall k, (k < length rest)%nat ->
            let t := Nat.iter k (fun t => t + chunkSec) target in
            (t <? totalDuration) = true
            /\ rest !! k = Some (planned_offset silences t))
      /\ (Nat.iter (length rest) (fun t => t + chunkSec) target
          <? totalDuration) = false.
Proof.
  induction fuel as [| fuel IH]; intros target splits plan; simpl;
    destruct (target <? totalDuration) eqn:Hlt; try discriminate.
  - intros [= <-]. exists []. rewrite app_nil_r.
    split; [done |]. split; [simpl; lia | done].
  - rewrite search_windows_first. simpl. intros Hloop.
    apply IH in Hloop as (rest & -> & Hrest & Hend).
    exists (planned_offset silences target :: rest). rewrite <- app_assoc.
    split; [done |]. split.
    + intros [| k] Hk; [done |]. cbv zeta. rewrite Nat.iter_succ_r.
      apply (Hrest k). simpl in Hk. lia.
    + change (length (planned_offset silences target :: rest))
        with (S (length rest)).
      by rewrite Nat.iter_succ_r.
  - intros [= <-]. exists []. rewrite app_nil_r.
    split; [done |]. split; [simpl; lia | done].
Qed.

Lemma target_loop_ends (T c : Q) (fuel : nat) :
  (0 < c)%Q ->
  forall (t : Q) (splits : list number),
    (T - t <= inject_Z (Z.of_nat fuel) * c)%Q ->
    exists plan,
      target_loop fuel silences (Fin T) (Fin c) (Fin t) splits = Some plan.
Proof.
  intros Hc. induction fuel as [| fuel IH]; intros t splits Hfuel; simpl.
  - destruct (Qltb t T) eqn:Hlt; [| eauto].
    apply Qltb_lt in Hlt. change (inject_Z (Z.of_nat 0)) with 0%Q in Hfuel.
    exfalso. lra.
  - destruct (Qltb t T) eqn:Hlt; [| eauto].
    rewrite search_windows_first. simpl. apply IH.
    apply Qltb_lt in Hlt.
    rewrite Nat2Z.inj_succ, <- Z.add_1_r, inject_Z_plus in Hfuel.
    change (inject_Z 1) with 1%Q in Hfuel. lra.
Qed.

Lemma checkpoint_Fin (c : Q) (k : nat) :
  exists q, checkpoint (Fin c) k = Fin q
            /\ (q == c * inject_Z (Z.of_nat (S k)))%Q.
Proof.
  unfold checkpoint. induction k as [| k (q & IH & Hq)].
  - exists c. split; [done |].
    change (inject_Z (Z.of_nat 1)) with 1%Q. lra.
  - exists (q + c)%Q. split; [simpl; by rewrite IH |].
    rewrite Hq, !Nat2Z.inj_succ, <- !Z.add_1_r, !inject_Z_plus.
    change (inject_Z 1) with 1%Q. lra.
Qed.

Lemma increasing_snoc (l : list number) (y : number) :
  increasing l = true ->
  (forall x, last l = Some x -> (x <? y) = true) ->
  increasing (l ++ [y]) = true.
Proof.
  induction l as [| x [| x' l] IH]; intros Hl Hlast; [done | |].
  - simpl. by rewrite (Hlast x).
  - simpl in *. apply andb_true_iff in Hl as [-> Hl]. simpl.
    apply IH; [done |]. intros z Hz. by apply Hlast.
Qed.

Lemma target_loop_increasing (totalDuration : number) (c : Q) (fuel : nat) :
  (360 < c)%Q ->
  forall (t : Q) (splits plan : list number),
    target_loop fuel silences totalDuration (Fin c) (Fin t) splits = Some plan ->
    increasing splits = true ->
    (forall x, x ∈ splits -> exists q, x = Fin q /\ (q < t - 180)%Q) ->
    increasing plan = true.
Proof.
  intros Hc. induction fuel as [| fuel IH]; intros t splits plan;
    destruct (Fin t <? totalDuration) eqn:Hlt;
    try (rewrite target_loop_unfold, Hlt; try discriminate;
         intros [= <-] Hinc _; exact Hinc).
  rewrite (target_loop_step _ _ _ _ _ Hlt).
  intros Hloop Hinc Hbelow.
  destruct (planned_offset_near t) as (p & Hp & Hp1 & Hp2). rewrite Hp in Hloop.
  apply IH in Hloop; [done | |].
  - apply increasing_snoc; [done |]. intros x Hx.
    destruct (Hbelow x) as (q & -> & Hq).
    { apply last_Some in Hx as [l' ->]. in_snoc. }
    apply ltb_Fin. lra.
  - intros x [Hx | ->%list_elem_of_singleton]%elem_of_app.
    + destruct (Hbelow x Hx) as (q & -> & Hq). exists q. split; [done | lra].
    + exists p. split; [done | lra].
Qed.

End TargetLoop.

Section PlannerChoice.

Variable silences : list Silence.t.

Lemma scan_found_iff (t q : Q) :
  is_Some (fst (scan silences (Fin t) (Fin q) no_best))
  <-> exists s, candidate silences (Fin t) (Fin q) s.
Proof.
  pose proof (scan_best silences t q) as Hbest. unfold best_of in Hbest.
  destruct (fst (scan silences (Fin t) (Fin q) no_best)) as [b|].
  - destruct Hbest as (Hb & _). split; eauto.
  - destruct Hbest as (_ & Hnone). split; [by intros [? [=]] |].
    intros (s & Hs & Hw). rewrite (Hnone s Hs) in Hw. discriminate.
Qed.

Lemma windows_split (j : nat) :
  (1 <= j <= 6)%nat ->
  window_of <$> seq 1 6
  = (window_of <$> seq 1 (j - 1)) ++ window_of j
      :: (window_of <$> seq (S j) (6 - j)).
Proof.
  intros Hj.
  assert (j = 1 \/ j = 2 \/ j = 3 \/ j = 4 \/ j = 5 \/ j = 6)%nat
    as [-> | [-> | [-> | [-> | [-> | ->]]]]] by lia; reflexivity.
Qed.

(** The offset chosen for a finite target: a nearest candidate of the first
    window that has one, and the target itself when the widest has none. *)
Lemma chosen_first_window (t : Q) :
  let target := Fin t in
  let offset :=
    chosen (first_window silences target (window_of <$> seq 1 6)) target in
  (forall j, (1 <= j <= 6)%nat ->
     (exists s, candidate silences target (window_of j) s) ->
     (forall i, (1 <= i < j)%nat ->
        forall s, ~ candidate silences target (window_of i) s) ->
     exists b, candidate silences target (window_of j) b
       /\ offset = Silence.start b
       /\ forall s, candidate silences target (window_of j) s ->
            (distance_to target b <=? distance_to target s) = true)
  /\ ((forall s, ~ candidate silences target (window_of 6) s) ->
      offset = target).
Proof.
  intros target offset. subst target offset. split.
  - intros j Hj Hcand Hbefore.
    rewrite (windows_split j Hj), first_window_hit.
    + pose proof (scan_best silences t (inject_Z (30 * Z.of_nat j))) as Hbest.
      apply scan_found_iff in Hcand as [b Hb].
      unfold best_of in Hbest. unfold chosen, window_of, of_Z in *.
      rewrite Hb in *. destruct Hbest as (Hc & _ & Hmin). eauto.
    + intros w' (i & -> & Hi%elem_of_seq)%list_elem_of_fmap.
      destruct (fst (scan silences (Fin t) (window_of i) no_best)) as [b|] eqn:Hs;
        [| done].
      exfalso. assert (is_Some (fst (scan silences (Fin t) (window_of i) no_best)))
        as Hsome by (rewrite Hs; eauto).
      apply scan_found_iff in Hsome as [s Hcs].
      apply (Hbefore i ltac:(lia) s Hcs).
    + by apply scan_found_iff.
  - intros Hnone. rewrite first_window_miss; [done |].
    intros w Hw. apply window_of_cases in Hw as (q & -> & Hq).
    destruct (fst (scan silences (Fin t) (Fin q) no_best)) as [b|] eqn:Hs;
      [| done].
    exfalso. assert (is_Some (fst (scan silences (Fin t) (Fin q) no_best)))
      as Hsome by (rewrite Hs; eauto).
    apply scan_found_iff in Hsome as [s [Hin Hcs]].
    apply (Hnone s). split; [done |].
    by apply (in_window_mono t q (inject_Z 180) s Hq).
Qed.

End PlannerChoice.

Lemma checkpoint_mono (c : Q) (n k : nat) (T : Q) :
  (0 < c)%Q -> (n <= k)%nat ->
  (checkpoint (Fin c) n <? Fin T) = false ->
  (checkpoint (Fin c) k <? Fin T) = false.
Proof.
  intros Hc Hnk.
  destruct (checkpoint_Fin c n) as (qn & -> & Hn).
  destruct (checkpoint_Fin c k) as (qk & -> & Hk).
  simpl. rewrite !Qltb_ge, Hn, Hk. intros HT.
  apply Qle_trans with (1 := HT). apply Qmult_le_l; [done |].
  rewrite <- Zle_Qle. lia.
Qed.

(** C5, as the code has it.  When the target chunk length is above 360
    seconds (twice the widest search window), the planner, given fuel for
    every checkpoint, returns offsets that start at 0 and are strictly
    increasing, whatever the silences are. *)
Theorem findSplitPoints_increasing (silences : list Silence.t) (T c : Q)
  (fuel : nat) :
  (360 < c)%Q ->
  (T <= inject_Z (Z.of_nat fuel) * c)%Q ->
  exists plan,
    findSplitPoints fuel silences (Fin T) (Fin c) = Some plan
    /\ head plan = Some (of_Z 0)
    /\ increasing plan = true.
Proof.
  intros Hc Hfuel. unfold findSplitPoints.
  destruct (target_loop_ends silences T c fuel ltac:(lra) c [of_Z 0])
    as [plan Hplan]; [lra |].
  exists plan. split; [done |]. split.
  - apply target_loop_plan in Hplan as (rest & -> & _). done.
  - apply (target_loop_increasing silences (Fin T) c fuel Hc c [of_Z 0] plan);
      [done | done |].
    intros x ->%list_elem_of_singleton. exists (inject_Z 0).
    split; [done |]. change (inject_Z 0) with 0%Q. lra.
Qed.

(** C5 as stated fails for a short target chunk length: with chunks of 60
    seconds and one silence at 90 seconds, the checkpoints 60 and 120 both
    choose 90. *)
Lemma findSplitPoints_not_increasing :
  findSplitPoints 3 [Silence.mk (of_Z 90) (of_Z 92)] (of_Z 180) (of_Z 60)
  = Some [of_Z 0; of_Z 90; of_Z 90]
  /\ increasing [of_Z 0; of_Z 90; of_Z 90] = false.
Proof. split; vm_compute; reflexivity. Qed.

(** The threshold of 360 seconds is sharp: at 360 the checkpoints 360 and
    720 can both choose a silence at 540. *)
Example findSplitPoints_repeats_at_360 :
  findSplitPoints 3 [Silence.mk (of_Z 540) (of_Z 545)] (of_Z 1000) (of_Z 360)
  = Some [of_Z 0; of_Z 540; of_Z 540].
Proof. vm_compute. reflexivity. Qed.

(** C6.  For every checkpoint below the total duration the plan holds an
    offset, and that offset is the start of a silence nearest to the
    checkpoint among those within the first of the windows 30, 60, ..., 180
    that holds any; when no silence starts within 180 seconds of the
    checkpoint, the offset is the checkpoint itself. *)
Theorem findSplitPoints_choice (silences : list Silence.t) (T c : Q)
  (fuel : nat) :
  (0 < c)%Q ->
  (T <= inject_Z (Z.of_nat fuel) * c)%Q ->
  exists plan,
    findSplitPoints fuel silences (Fin T) (Fin c) = Some plan
    /\ forall k,
         let target := checkpoint (Fin c) k in
         (target <? Fin T) = true ->
         exists offset,
           plan !! S k = Some offset
           /\ (forall j, (1 <= j <= 6)%nat ->
                 (exists s, candidate silences target (window_of j) s) ->
                 (forall i, (1 <= i < j)%nat ->
                    forall s, ~ candidate silences target (window_of i) s) ->
                 exists b, candidate silences target (window_of j) b
                   /\ offset = Silence.start b
                   /\ forall s, candidate silences target (window_of j) s ->
                        (distance_to target b <=? distance_to target s) = true)
           /\ ((forall s, ~ candidate silences target (window_of 6) s) ->
               offset = target).
Proof.
  intros Hc Hfuel. unfold findSplitPoints.
  destruct (target_loop_ends silences T c fuel Hc c [of_Z 0])
    as [plan Hplan]; [lra |].
  exists plan. split; [done |].
  apply target_loop_plan in Hplan as (rest & -> & Hrest & Hend).
  intros k Hk.
  assert (k < length rest)%nat as Hlen.
  { destruct (decide (k < length rest)%nat) as [| Hge]; [done |].
    rewrite (checkpoint_mono c (length rest) k T) in Hk; [done | done | lia |].
    exact Hend. }
  destruct (Hrest k Hlen) as [_ Hpick].
  fold (checkpoint (Fin c) k) in Hpick.
  destruct (checkpoint_Fin c k) as (q & Hq & _). rewrite Hq in *.
  eexists. split; [exact Hpick |].
  apply chosen_first_window.
Qed.

Lemma findSplitPoints_increasing_witness :
  (360 < 600)%Q
  /\ (2000 <= inject_Z (Z.of_nat 4) * 600)%Q
  /\ exists plan,
       findSplitPoints 4 [Silence.mk (of_Z 615) (of_Z 620)]
         (Fin 2000) (Fin 600) = Some plan
       /\ head plan = Some (of_Z 0)
       /\ increasing plan = true.
Proof.
  split; [q_const |]. split; [q_const |].
  apply (findSplitPoints_increasing
           [Silence.mk (of_Z 615) (of_Z 620)] 2000 600 4); q_const.
Defined.

Lemma findSplitPoints_choice_witness :
  (0 < 600)%Q
  /\ (1000 <= inject_Z (Z.of_nat 2) * 600)%Q
  /\ exists plan,
       findSplitPoints 2 [Silence.mk (of_Z 650) (of_Z 655)]
         (Fin 1000) (Fin 600) = Some plan
       /\ plan !! 1%nat = Some (of_Z 650).
Proof.
  split; [q_const |]. split; [q_const |].
  destruct (findSplitPoints_choice
              [Silence.mk (of_Z 650) (of_Z 655)] 1000 600 2)
    as (plan & Hplan & _); [q_const | q_const |].
  exists plan. split; [exact Hplan |].
  vm_compute in Hplan. injection Hplan as <-. reflexivity.
Defined.

(** A checkpoint at 600 with one silence at 615: found in the first window,
    of 30 seconds. *)
Example findSplitPoints_window_30 :
  is_Some (fst (scan [Silence.mk (of_Z 615) (of_Z 620)] (of_Z 600)
                  (window_of 1) no_best))
  /\ findSplitPoints 2 [Silence.mk (of_Z 615) (of_Z 620)]
       (of_Z 1000) (of_Z 600) = Some [of_Z 0; of_Z 615].
Proof. split; [vm_compute; eauto | vm_compute; reflexivity]. Qed.

(** With one silence at 650 the window of 30 seconds finds nothing and the
    window of 60 seconds finds it. *)
Example findSplitPoints_window_60 :
  fst (scan [Silence.mk (of_Z 650) (of_Z 655)] (of_Z 600)
         (window_of 1) no_best) = None
  /\ is_Some (fst (scan [Silence.mk (of_Z 650) (of_Z 655)] (of_Z 600)
                     (window_of 2) no_best))
  /\ findSplitPoints 2 [Silence.mk (of_Z 650) (of_Z 655)]
       (of_Z 1000) (of_Z 600) = Some [of_Z 0; of_Z 650].
Proof.
  split; [vm_compute; reflexivity |].
  split; [vm_compute; eauto | vm_compute; reflexivity].
Qed.

(** The search stops at the first window that finds a silence, and keeps the
    nearest one of that window: 625 then 580 within 30 seconds of 600. *)
Example findSplitPoints_nearest_in_window :
  findSplitPoints 2
    [Silence.mk (of_Z 625) (of_Z 628); Silence.mk (of_Z 580) (of_Z 583);
     Silence.mk (of_Z 640) (of_Z 643)]
    (of_Z 1000) (of_Z 600) = Some [of_Z 0; of_Z 580].
Proof. vm_compute. reflexivity. Qed.

(** No silence within 180 seconds of the checkpoint: a cut at the checkpoint
    itself. *)
Example findSplitPoints_hard_cut :
  findSplitPoints 2 [Silence.mk (of_Z 200) (of_Z 205);
                     Silence.mk (of_Z 900) (of_Z 905)]
    (of_Z 1000) (of_Z 600) = Some [of_Z 0; of_Z 600].
Proof. vm_compute. reflexivity. Qed.

(** ** Chunk extractor *)

Section Extractor.

Variables (filePath : jsstring) (totalDuration : number).

Lemma ranges_of_lookup (splitPoints : list number) (i : nat) :
  ranges_of splitPoints totalDuration !! i
  = (fun o => (o, chunk_end splitPoints totalDuration i)) <$> splitPoints !! i.
Proof.
  unfold ranges_of, chunk_end.
  destruct (splitPoints !! i) as [o|] eqn:Hi; simpl.
  - apply lookup_zip_with_Some.
    exists o, (default totalDuration (splitPoints !! S i)).
    split; [done | split; [done |]].
    apply lookup_lt_Some in Hi.
    destruct (splitPoints !! S i) as [o'|] eqn:Hn; simpl.
    + rewrite lookup_app_l, lookup_drop; [done |].
      rewrite length_drop. apply lookup_lt_Some in Hn. lia.
    + apply lookup_ge_None in Hn.
      rewrite lookup_app_r; rewrite length_drop; [| lia].
      replace (i - (length splitPoints - 1))%nat with 0%nat by lia. done.
  - apply lookup_ge_None. apply lookup_ge_None in Hi.
    rewrite length_zip_with. lia.
Qed.

Lemma splitAudio_runs_lookup (splitPoints : list number) (i : nat) :
  fst (splitAudio filePath splitPoints totalDuration) !! i
  = (fun o => FfmpegRun.mk filePath o (chunk_end splitPoints totalDuration i)
                (chunkPath i))
      <$> splitPoints !! i.
Proof.
  unfold splitAudio. simpl. rewrite list_lookup_fmap, list_lookup_imap.
  by destruct (splitPoints !! i).
Qed.

Lemma splitAudio_chunks_lookup (splitPoints : list number) (i : nat) :
  snd (splitAudio filePath splitPoints totalDuration) !! i
  = (fun o => ChunkInfo.mk (chunkPath i) o
                (chunk_end splitPoints totalDuration i - o))
      <$> splitPoints !! i.
Proof.
  unfold splitAudio. simpl. rewrite list_lookup_fmap, list_lookup_imap.
  by destruct (splitPoints !! i).
Qed.

End Extractor.

(** C7.  For offsets [[o0, ..., on]] the runs of ffmpeg cut out exactly the
    ranges [[o0,o1), ..., [on,totalDuration)], the chunk records carry each
    range's start and length, and every range ends where the next one
    starts.  Offsets [[0, 100, 250]] with a total duration of 300 give
    three chunks, over [[0,100)], [[100,250)] and [[250,300)]. *)
Theorem splitAudio_ranges :
  (forall filePath splitPoints totalDuration,
     let runs := fst (splitAudio filePath splitPoints totalDuration) in
     let chunks := snd (splitAudio filePath splitPoints totalDuration) in
     run_range <$> runs = ranges_of splitPoints totalDuration
     /\ chunks = imap chunk_of_range (ranges_of splitPoints totalDuration)
     /\ (forall i r r', runs !! i = Some r -> runs !! S i = Some r' ->
           FfmpegRun.to r = FfmpegRun.ss r')
     /\ (forall r, last runs = Some r -> FfmpegRun.to r = totalDuration))
  /\ splitAudio (lit "audio.wav") [of_Z 0; of_Z 100; of_Z 250] (of_Z 300)
     = ([FfmpegRun.mk (lit "audio.wav") (of_Z 0) (of_Z 100) (chunkPath 0);
         FfmpegRun.mk (lit "audio.wav") (of_Z 100) (of_Z 250) (chunkPath 1);
         FfmpegRun.mk (lit "audio.wav") (of_Z 250) (of_Z 300) (chunkPath 2)],
        [ChunkInfo.mk (chunkPath 0) (of_Z 0) (of_Z 100);
         ChunkInfo.mk (chunkPath 1) (of_Z 100) (of_Z 150);
         ChunkInfo.mk (chunkPath 2) (of_Z 250) (of_Z 50)]).
Proof.
  split; [| vm_compute; reflexivity].
  intros filePath splitPoints totalDuration runs chunks. subst runs chunks.
  repeat split.
  - apply list_eq. intros i.
    rewrite list_lookup_fmap, splitAudio_runs_lookup, ranges_of_lookup.
    by destruct (splitPoints !! i).
  - apply list_eq. intros i.
    rewrite splitAudio_chunks_lookup, list_lookup_imap, ranges_of_lookup.
    by destruct (splitPoints !! i).
  - intros i r r'. rewrite !splitAudio_runs_lookup.
    destruct (splitPoints !! i) as [o|] eqn:Hi; [| done].
    destruct (splitPoints !! S i) as [o'|] eqn:Hn; [| done].
    simpl. intros [= <-] [= <-]. simpl. unfold chunk_end. by rewrite Hn.
  - intros r. rewrite last_lookup, splitAudio_runs_lookup.
    unfold splitAudio. simpl. rewrite length_fmap, length_imap.
    destruct (splitPoints !! pred (length splitPoints)) as [o|] eqn:Hi; [| done].
    simpl. intros [= <-]. simpl. unfold chunk_end.
    apply lookup_lt_Some in Hi.
    rewrite (proj2 (lookup_ge_None _ _)); [done | lia].
Qed.

(** C4, as the code has it.  The extractor makes one chunk for every offset
    of the plan: a plan of [n + 1] offsets gives [n + 1] chunks. *)
Theorem splitAudio_chunk_count (filePath : jsstring)
  (splitPoints : list number) (totalDuration : number) :
  length (snd (splitAudio filePath splitPoints totalDuration))
  = length splitPoints.
Proof. unfold splitAudio. simpl. by rewrite length_fmap, length_imap. Qed.

(** C4 as stated fails: a plan of three offsets gives three chunks, not
    two. *)
Lemma splitAudio_count_counterexample :
  length [of_Z 0; of_Z 100; of_Z 250] = (2 + 1)%nat
  /\ length (snd (splitAudio (lit "audio.wav")
                    [of_Z 0; of_Z 100; of_Z 250] (of_Z 300))) <> 2%nat.
Proof. split; [reflexivity | vm_compute; discriminate]. Qed.

(** ** Words *)
Section Words.

Lemma split_spaces_from_nonempty (s : jsstring) (in_sep : bool)
  (cur : jsstring) :
  split_spaces_from in_sep cur s <> [].
Proof.
  revert in_sep cur. induction s as [| c r IH]; intros in_sep cur; simpl;
    [done |].
  destruct (is_space c); [destruct in_sep |]; [apply IH | done | apply IH].
Qed.

Lemma words_of_segment_blank (offsetSec : number)
  (segment : DiarizedSegment.t) :
  Forall (fun c => is_space c = true) (DiarizedSegment.text segment) ->
  words_of_segment offsetSec segment = [].
Proof.
  intros Hblank. unfold words_of_segment.
  by rewrite (trim_blank _ Hblank).
Qed.

Lemma words_of_segment_tokens (offsetSec : number)
  (segment : DiarizedSegment.t) :
  Exists (fun c => is_space c = false) (DiarizedSegment.text segment) ->
  let tokens := split_spaces (trim (DiarizedSegment.text segment)) in
  (1 <= length tokens)%nat
  /\ Forall token_ok tokens
  /\ words_of_segment offsetSec segment
     = imap (uniform_word segment offsetSec (length tokens)) tokens.
Proof.
  intros Hsome tokens. subst tokens. unfold words_of_segment.
  destruct (trim_nonblank _ Hsome) as (c & r & -> & Hc & Hend).
  pose proof (split_spaces_trimmed c r Hc Hend) as Hok.
  pose proof (split_spaces_from_nonempty (c :: r) false []) as Hne.
  fold (split_spaces (c :: r)) in Hne.
  destruct (split_spaces (c :: r)) as [| tok toks] eqn:Htoks; [done |].
  split; [simpl; lia |]. split; [done |].
  apply Forall_cons in Hok as [[Htok _] _].
  rewrite bool_decide_eq_false_2 by done.
  rewrite bool_decide_eq_false_2; [done |].
  simpl. by intros [= ->].
Qed.

Lemma blank_spec (text : jsstring) :
  if blank text then Forall (fun c => is_space c = true) text
  else Exists (fun c => is_space c = false) text.
Proof.
  unfold blank. induction text as [| c text IH]; [constructor |].
  cbn [forallb]. destruct (is_space c) eqn:Hc; cbn [andb].
  - destruct (forallb is_space text); [by constructor | by apply Exists_cons_tl].
  - by apply Exists_cons_hd.
Qed.

Lemma words_of_segment_slices (offsetSec : number)
  (segment : DiarizedSegment.t) :
  words_of_segment offsetSec segment = segment_slices offsetSec segment.
Proof.
  unfold segment_slices.
  pose proof (blank_spec (DiarizedSegment.text segment)) as Htext.
  destruct (blank (DiarizedSegment.text segment)).
  - by apply words_of_segment_blank.
  - by destruct (words_of_segment_tokens offsetSec segment Htext)
      as (_ & _ & ->).
Qed.

(** A result without word timestamps gives the words of its segments, one
    segment after the other. *)
Lemma extractWords_segments (result : VerboseResponse.t)
  (offsetSec : number) (segs : list DiarizedSegment.t) :
  VerboseResponse.words result = None ->
  VerboseResponse.segments result = Some segs ->
  extractWords result offsetSec
  = concat (segment_slices offsetSec <$> segs).
Proof.
  intros Hws Hsegs. unfold extractWords. rewrite Hws, Hsegs. f_equal.
  apply list_fmap_ext. intros _ segment _. apply words_of_segment_slices.
Qed.

End Words.

(** C8.  A segment whose text is empty or white space gives no word.
    Otherwise its text splits at white space into [k >= 1] tokens, none
    empty, and gives one word for each in order, the [i]-th spanning
    [[start + i * slice, start + (i + 1) * slice)] for
    [slice = (end - start) / k] (with the offset added, and rendered to
    milliseconds).  The segment ["a b c"] over [[0, 3]] gives three words
    over [[0,1)], [[1,2)] and [[2,3)].  A result without word timestamps
    gives these words for every one of its segments, in the order of the
    segments, and nothing else. *)
Theorem words_of_segment_uniform (offsetSec : number)
  (segment : DiarizedSegment.t) :
  let tokens := split_spaces (trim (DiarizedSegment.text segment)) in
  (Forall (fun c => is_space c = true) (DiarizedSegment.text segment) ->
   words_of_segment offsetSec segment = [])
  /\ (Exists (fun c => is_space c = false) (DiarizedSegment.text segment) ->
      (1 <= length tokens)%nat
      /\ Forall token_ok tokens
      /\ words_of_segment offsetSec segment
         = imap (uniform_word segment offsetSec (length tokens)) tokens)
  /\ extractWords
       (VerboseResponse.mk (lit "a b c") None
          (Some [DiarizedSegment.mk (lit "speaker_1") (lit "a b c")
                   (of_Z 0) (of_Z 3)]))
       (of_Z 0)
     = [TranscriptionWord.mk (lit "a")
          (Some (lit "0.000s")) (Some (lit "1.000s"))
          (Some (lit "00:00.000")) (Some (lit "00:01.000")) (Some (lit "1"));
        TranscriptionWord.mk (lit "b")
          (Some (lit "1.000s")) (Some (lit "2.000s"))
          (Some (lit "00:01.000")) (Some (lit "00:02.000")) (Some (lit "1"));
        TranscriptionWord.mk (lit "c")
          (Some (lit "2.000s")) (Some (lit "3.000s"))
          (Some (lit "00:02.000")) (Some (lit "00:03.000")) (Some (lit "1"))]
  /\ (forall result offset segs,
        VerboseResponse.words result = None ->
        VerboseResponse.segments result = Some segs ->
        extractWords result offset
        = concat (segment_slices offset <$> segs)
        /\ forall j seg,
             segs !! j = Some seg ->
             segment_slices offset seg
             `sublist_of` extractWords result offset).
Proof.
  intros tokens. split; [apply words_of_segment_blank |].
  split; [apply words_of_segment_tokens |].
  split; [vm_compute; reflexivity |].
  intros result offset segs Hws Hsegs.
  rewrite (extractWords_segments result offset segs Hws Hsegs).
  split; [done |]. intros j seg Hj.
  apply list_elem_of_split_length in Hj as (pre & post & -> & _).
  rewrite fmap_app, fmap_cons, concat_app. cbn [concat].
  apply sublist_inserts_l, sublist_inserts_r. reflexivity.
Qed.

(** A segment of white space only: no word. *)
Example words_of_segment_spaces :
  words_of_segment (of_Z 0)
    (DiarizedSegment.mk (lit "speaker_1") (lit "   ") (of_Z 0) (of_Z 3)) = [].
Proof. vm_compute. reflexivity. Qed.

(** Slices that are no multiple of a millisecond are rendered to the
    nearest one: three tokens over one second. *)
Example words_of_segment_thirds :
  TranscriptionWord.startOffset
    <$> words_of_segment (of_Z 0)
          (DiarizedSegment.mk (lit "A") (lit "a b c") (of_Z 0) (of_Z 1))
  = [Some (lit "0.000s"); Some (lit "0.333s"); Some (lit "0.667s")].
Proof. vm_compute. reflexivity. Qed.

Lemma words_of_segment_uniform_witness :
  Exists (fun c => is_space c = false) (lit "a b c")
  /\ length (words_of_segment (of_Z 0)
               (DiarizedSegment.mk (lit "speaker_1") (lit "a b c")
                  (of_Z 0) (of_Z 3))) = 3%nat.
Proof.
  assert (Exists (fun c => is_space c = false) (lit "a b c")) as Hsome
    by (apply Exists_cons_hd; reflexivity).
  split; [exact Hsome |].
  destruct (proj1 (proj2 (words_of_segment_uniform (of_Z 0)
              (DiarizedSegment.mk (lit "speaker_1") (lit "a b c")
                 (of_Z 0) (of_Z 3)))) Hsome) as (_ & _ & ->).
  reflexivity.
Defined.

(** C10.  Every word of a segment carries the segment's speaker with the
    first ["speaker_"] taken out, so ["speaker_1"] becomes ["1"]: the
    speaker is not passed through as it is.  In word-timestamp mode every
    word carries ["0"]. *)
Theorem speaker_label_of_words :
  (forall offsetSec segment w,
     w ∈ words_of_segment offsetSec segment ->
     TranscriptionWord.speakerLabel w
     = Some (replace (lit "speaker_") [] (DiarizedSegment.speaker segment)))
  /\ (forall rest, replace (lit "speaker_") [] (lit "speaker_" ++ rest) = rest)
  /\ (forall pre post,
        (forall i, (i < length pre)%nat ->
           starts_with (lit "speaker_")
             (drop i (pre ++ lit "speaker_" ++ post)) = false) ->
        replace (lit "speaker_") [] (pre ++ lit "speaker_" ++ post)
        = pre ++ post)
  /\ replace (lit "speaker_") [] (lit "speaker_1") = lit "1"
  /\ (forall result offsetSec ws w,
        VerboseResponse.words result = Some ws ->
        w ∈ extractWords result offsetSec ->
        TranscriptionWord.speakerLabel w = Some (lit "0")).
Proof.
  split; [| split; [| split; [| split]]].
  - intros offsetSec segment w. unfold words_of_segment.
    destruct (_ || _); [by intros ?%elem_of_nil |].
    intros [i Hi]%list_elem_of_lookup. rewrite list_lookup_imap in Hi.
    destruct (_ !! i); [| done]. by injection Hi as <-.
  - intros rest. apply (replace_prefix (lit "speaker_") [] rest).
  - intros pre post Hfirst.
    apply (replace_first (lit "speaker_") [] pre post Hfirst).
  - reflexivity.
  - intros result offsetSec ws w Hws. unfold extractWords. rewrite Hws.
    by intros (tw & -> & _)%list_elem_of_fmap.
Qed.

Lemma speaker_label_of_words_witness :
  uniform_word
    (DiarizedSegment.mk (lit "speaker_1") (lit "a b") (of_Z 0) (of_Z 2))
    (of_Z 0) 2 1 (lit "b")
  ∈ words_of_segment (of_Z 0)
      (DiarizedSegment.mk (lit "speaker_1") (lit "a b") (of_Z 0) (of_Z 2))
  /\ TranscriptionWord.speakerLabel
       (uniform_word
          (DiarizedSegment.mk (lit "speaker_1") (lit "a b") (of_Z 0) (of_Z 2))
          (of_Z 0) 2 1 (lit "b"))
     = Some (lit "1").
Proof.
  assert (uniform_word
            (DiarizedSegment.mk (lit "speaker_1") (lit "a b") (of_Z 0) (of_Z 2))
            (of_Z 0) 2 1 (lit "b")
          ∈ words_of_segment (of_Z 0)
              (DiarizedSegment.mk (lit "speaker_1") (lit "a b")
                 (of_Z 0) (of_Z 2))) as Hin
    by (apply list_elem_of_further, list_elem_of_here).
  split; [exact Hin |].
  rewrite (proj1 speaker_label_of_words _ _ _ Hin). reflexivity.
Defined.

(** The speaker is kept as it is only when it holds no ["speaker_"]; an
    occurrence further in is taken out as well, and only the first one. *)
Example speaker_label_cases :
  replace (lit "speaker_") [] (lit "A") = lit "A"
  /\ replace (lit "speaker_") [] (lit "my_speaker_2") = lit "my_2"
  /\ replace (lit "speaker_") [] (lit "speaker_speaker_3") = lit "speaker_3".
Proof. repeat split. Qed.

(** ** Dispatch and merge *)

Section Dispatch.

Lemma transcribe_chunk_fulfilled (service : Service) (i : nat)
  (chunk : ChunkInfo.t) :
  transcribe_chunk service i chunk
  = Fulfilled (Outcome.mk i (chunk_words service chunk) chunk).
Proof.
  unfold transcribe_chunk, chunk_words.
  by destruct (service (ChunkInfo.path chunk)).
Qed.

Lemma settle_all_fulfilled {A : Type} (vs : list A) (order : list nat) :
  forall values : list (option A),
    length values = length vs ->
    exists values',
      settle_all order (Fulfilled <$> vs) values = Fulfilled values'
      /\ length values' = length vs
      /\ forall i, values' !! i
                   = if decide (i ∈ order) then Some <$> vs !! i
                     else values !! i.
Proof.
  induction order as [| j order IH]; intros values Hlen; simpl.
  - exists values. split; [done |]. split; [done |]. intros i.
    destruct (decide (i ∈ [])) as [Hin |]; [| done]. by apply elem_of_nil in Hin.
  - rewrite list_lookup_fmap. destruct (vs !! j) as [v|] eqn:Hj; simpl.
    + destruct (IH (<[j := Some v]> values)) as (values' & Hs & Hl & Hlook).
      { by rewrite length_insert. }
      exists values'. split; [done |]. split; [done |]. intros i.
      rewrite Hlook.
      destruct (decide (i ∈ order)) as [Hin | Hnin].
      * rewrite decide_True; [done | by right].
      * destruct (decide (i = j)) as [-> | Hne].
        -- rewrite decide_True by left.
           rewrite list_lookup_insert_eq, Hj; [done |].
           rewrite Hlen. by eapply lookup_lt_Some.
        -- rewrite decide_False.
           ++ by rewrite list_lookup_insert_ne.
           ++ intros [-> | Hin]%elem_of_cons; [done | by apply Hnin].
    + destruct (IH values Hlen) as (values' & Hs & Hl & Hlook).
      exists values'. split; [done |]. split; [done |]. intros i.
      rewrite Hlook.
      destruct (decide (i ∈ order)) as [Hin | Hnin].
      * rewrite decide_True; [done | by right].
      * destruct (decide (i = j)) as [-> | Hne].
        -- rewrite decide_True by left. rewrite Hj. simpl.
           apply lookup_ge_None. rewrite Hlen. by apply lookup_ge_None.
        -- rewrite decide_False; [done |].
           intros [-> | Hin]%elem_of_cons; [done | by apply Hnin].
Qed.

(** When every promise is fulfilled and each of them settles, in whatever
    order, [Promise.all] gives their values in the order of the promises. *)
Lemma promise_all_fulfilled {A : Type} (vs : list A) (order : list nat) :
  order ≡ₚ seq 0 (length vs) ->
  promise_all order (Fulfilled <$> vs) = Some (Fulfilled vs).
Proof.
  intros Hperm. unfold promise_all. rewrite length_fmap.
  destruct (settle_all_fulfilled vs order (replicate (length vs) None))
    as (values & -> & Hlen & Hlook); [by rewrite length_replicate |].
  assert (values = Some <$> vs) as ->.
  { apply list_eq. intros i. rewrite Hlook, list_lookup_fmap.
    destruct (decide (i ∈ order)) as [| Hnin]; [done |].
    rewrite (proj2 (lookup_ge_None _ _)), (proj2 (lookup_ge_None _ _)); [done | |].
    - destruct (decide (length vs <= i)%nat); [done |]. exfalso. apply Hnin.
      rewrite Hperm. apply elem_of_seq. lia.
    - rewrite length_replicate.
      destruct (decide (length vs <= i)%nat); [done |]. exfalso. apply Hnin.
      rewrite Hperm. apply elem_of_seq. lia. }
  by rewrite mapM_fmap_Some.
Qed.

Lemma dispatch_outcomes (service : Service) (order : list nat)
  (chunks : list ChunkInfo.t) :
  order ≡ₚ seq 0 (length chunks) ->
  dispatch service order chunks
  = Some (Fulfilled
            (imap (fun i chunk =>
                     Outcome.mk i (chunk_words service chunk) chunk) chunks)).
Proof.
  intros Hperm. unfold dispatch.
  rewrite (imap_ext _ (fun i chunk =>
             Fulfilled (Outcome.mk i (chunk_words service chunk) chunk))).
  - change (fun i chunk => Fulfilled (Outcome.mk i (chunk_words service chunk) chunk))
      with (fun i => Fulfilled ∘ (fun chunk =>
              Outcome.mk i (chunk_words service chunk) chunk)).
    rewrite <- fmap_imap. apply promise_all_fulfilled.
    by rewrite length_imap.
  - intros i chunk _. apply transcribe_chunk_fulfilled.
Qed.

End Dispatch.

Section Merge.

Lemma insert_sorted_perm (r : Outcome.t) (rs : list Outcome.t) :
  insert_sorted r rs ≡ₚ r :: rs.
Proof.
  induction rs as [| r' rs IH]; simpl; [done |].
  destruct (by_index r r' <=? 0)%Z; [done |].
  rewrite IH. apply Permutation_swap.
Qed.

Lemma sort_results_perm (results : list Outcome.t) :
  sort_results results ≡ₚ results.
Proof.
  induction results as [| r results IH]; simpl; [done |].
  by rewrite insert_sorted_perm, IH.
Qed.

Lemma insert_sorted_ordered (r : Outcome.t) (rs : list Outcome.t) :
  ordered rs -> ordered (insert_sorted r rs).
Proof.
  unfold ordered. induction rs as [| r' rs IH]; intros Hrs; simpl.
  - by repeat constructor.
  - apply StronglySorted_inv in Hrs as [Hrs Hall].
    destruct (by_index r r' <=? 0)%Z eqn:Hle.
    + apply Z.leb_le in Hle. constructor; [by constructor |].
      constructor; [done |].
      apply (Forall_impl _ _ _ Hall). unfold by_index in *. intros; lia.
    + apply Z.leb_gt in Hle. constructor; [by apply IH |].
      rewrite insert_sorted_perm. constructor; [| done].
      unfold by_index in *. lia.
Qed.

Lemma sort_results_ordered (results : list Outcome.t) :
  ordered (sort_results results).
Proof.
  induction results as [| r results IH]; simpl; [constructor |].
  by apply insert_sorted_ordered.
Qed.

Lemma ascending_ordered (results : list Outcome.t) :
  ascending results -> ordered results.
Proof.
  unfold ascending, ordered. induction 1 as [| r rs _ IH Hall]; constructor;
    [done |].
  apply (Forall_impl _ _ _ Hall). unfold by_index. intros; lia.
Qed.

Lemma ascending_NoDup (results : list Outcome.t) :
  ascending results -> NoDup (Outcome.index <$> results).
Proof.
  unfold ascending. induction 1 as [| r rs _ IH Hall]; simpl; constructor;
    [| done].
  intros (r' & Heq & Hin)%list_elem_of_fmap.
  rewrite Forall_forall in Hall. specialize (Hall r' Hin). lia.
Qed.

(** Two orderings of the same outcomes agree when no index occurs twice. *)
Lemma ordered_unique (l1 : list Outcome.t) :
  forall l2, l1 ≡ₚ l2 -> ordered l1 -> ordered l2 ->
             NoDup (Outcome.index <$> l1) -> l1 = l2.
Proof.
  unfold ordered. induction l1 as [| a l1 IH]; intros l2 Hperm H1 H2 Hnd.
  - by apply Permutation_nil_l in Hperm.
  - destruct l2 as [| b l2]; [by apply Permutation_nil_r in Hperm |].
    apply StronglySorted_inv in H1 as [H1 Ha].
    apply StronglySorted_inv in H2 as [H2 Hb].
    rewrite Forall_forall in Ha, Hb.
    simpl in Hnd. apply NoDup_cons in Hnd as [Hnotin Hnd].
    assert (a = b) as <-.
    { assert (b ∈ a :: l1) as Hbin by (rewrite Hperm; by left).
      assert (a ∈ b :: l2) as Hain by (rewrite <- Hperm; by left).
      apply elem_of_cons in Hbin as [-> | Hbin]; [done |].
      apply elem_of_cons in Hain as [-> | Hain]; [done |].
      exfalso. apply Hnotin. apply list_elem_of_fmap. exists b.
      split; [| done].
      specialize (Ha b Hbin). specialize (Hb a Hain).
      unfold by_index in *. lia. }
    f_equal. apply IH; [| done | done | done].
    by apply Permutation_cons_inv in Hperm.
Qed.

Lemma sort_results_ascending (results sorted : list Outcome.t) :
  results ≡ₚ sorted -> ascending sorted -> sort_results results = sorted.
Proof.
  intros Hperm Hasc. symmetry. apply ordered_unique.
  - by rewrite sort_results_perm.
  - by apply ascending_ordered.
  - apply sort_results_ordered.
  - by apply ascending_NoDup.
Qed.

Lemma push_all_concat (results : list Outcome.t)
  (allWords : list TranscriptionWord.t) :
  fold_left (fun allWords r => allWords ++ Outcome.words r) results allWords
  = allWords ++ concat (Outcome.words <$> results).
Proof.
  revert allWords. induction results as [| r results IH]; intros allWords;
    simpl; [by rewrite app_nil_r |].
  by rewrite IH, app_assoc.
Qed.

Lemma mergeWords_concat (results : list Outcome.t) :
  mergeWords results = concat (Outcome.words <$> sort_results results).
Proof. unfold mergeWords. by rewrite push_all_concat. Qed.

Lemma imap_ascending (f : ChunkInfo.t -> list TranscriptionWord.t)
  (chunks : list ChunkInfo.t) (from : nat) :
  ascending (imap (fun i chunk => Outcome.mk (from + i) (f chunk) chunk) chunks).
Proof.
  unfold ascending. revert from.
  induction chunks as [| c chunks IH]; intros from; simpl; constructor.
  - specialize (IH (S from)).
    erewrite imap_ext; [exact IH |]. intros i x _. simpl. f_equal. lia.
  - apply Forall_forall. intros r Hr.
    apply list_elem_of_lookup in Hr as [i Hi].
    rewrite list_lookup_imap in Hi.
    destruct (chunks !! i); [| done]. injection Hi as <-. simpl. lia.
Qed.

Lemma transcribeChunks_words (service : Service) (order : list nat)
  (chunks : list ChunkInfo.t) :
  order ≡ₚ seq 0 (length chunks) ->
  transcribeChunks service order chunks
  = Some (Fulfilled (concat (chunk_words service <$> chunks))).
Proof.
  intros Hperm. unfold transcribeChunks. rewrite dispatch_outcomes by done.
  simpl. do 2 f_equal. rewrite mergeWords_concat.
  rewrite (sort_results_ascending _ _ (reflexivity _)).
  - f_equal. apply list_eq. intros i.
    rewrite !list_lookup_fmap, list_lookup_imap. by destruct (chunks !! i).
  - apply (imap_ascending (chunk_words service) chunks 0).
Qed.

End Merge.

(** ** The merged words *)

Lemma elem_of_concat {A : Type} (x : A) (ls : list (list A)) :
  x ∈ concat ls <-> exists l, x ∈ l /\ l ∈ ls.
Proof.
  rewrite list_elem_of_In, in_concat. split.
  - intros (l & Hl & Hx). exists l. by rewrite !list_elem_of_In.
  - intros (l & Hx & Hl). exists l. by rewrite <- !list_elem_of_In.
Qed.

(** C2.  For every chunk and every word of its transcription, the merged
    list holds the word with the chunk's start offset added to its start
    and to its end, each sum written as seconds with three decimals (and as
    minutes and seconds).  Read back by [parseOffset], a sum that is not
    negative comes out to the nearest millisecond, and as it is when it is
    a whole number of milliseconds.  A word at [[2.0, 2.5]] of a chunk at
    250 comes out at ["252.000s"] and ["252.500s"].  The same holds of a
    transcription that comes as segments: every word of every segment is
    in the merged list with the chunk's start offset added to both ends of
    its slice, and a segment ["a b"] over [[0, 2]] of a chunk at 250 comes
    out as ["250.000s"] to ["251.000s"] and ["251.000s"] to ["252.000s"]. *)
Theorem merged_word_times :
  (forall service order chunks i chunk result ws k w,
     order ≡ₚ seq 0 (length chunks) ->
     chunks !! i = Some chunk ->
     service (ChunkInfo.path chunk) = Fulfilled result ->
     VerboseResponse.words result = Some ws ->
     ws !! k = Some w ->
     exists merged,
       transcribeChunks service order chunks = Some (Fulfilled merged)
       /\ timed_word (TimedWord.word w)
            (TimedWord.start w + ChunkInfo.startOffset chunk)
            (TimedWord.end_ w + ChunkInfo.startOffset chunk) ∈ merged)
  /\ (forall result offsetSec ws,
        VerboseResponse.words result = Some ws ->
        extractWords result offsetSec
        = (fun w => timed_word (TimedWord.word w)
                      (TimedWord.start w + offsetSec)
                      (TimedWord.end_ w + offsetSec)) <$> ws)
  /\ (forall word (from to : Q),
        (0 <= from)%Q -> (0 <= to)%Q ->
        exists v1 v2,
          parseOffset (TranscriptionWord.startOffset
                         (timed_word word (Fin from) (Fin to))) = Fin v1
          /\ parseOffset (TranscriptionWord.endOffset
                            (timed_word word (Fin from) (Fin to))) = Fin v2
          /\ (Qabs (v1 - from) <= 1 # 2000)%Q
          /\ (Qabs (v2 - to) <= 1 # 2000)%Q
          /\ (forall m : Z,
                (from == inject_Z m / inject_Z 1000)%Q -> (v1 == from)%Q)
          /\ (forall m : Z,
                (to == inject_Z m / inject_Z 1000)%Q -> (v2 == to)%Q))
  /\ extractWords
       (VerboseResponse.mk (lit "hello")
          (Some [TimedWord.mk (lit "hello") (of_Z 2) (Fin (5 # 2))]) None)
       (of_Z 250)
     = [TranscriptionWord.mk (lit "hello")
          (Some (lit "252.000s")) (Some (lit "252.500s"))
          (Some (lit "04:12.000")) (Some (lit "04:12.500"))
          (Some (lit "0"))]
  /\ (forall service order chunks i chunk result segs j segment k token,
        order ≡ₚ seq 0 (length chunks) ->
        chunks !! i = Some chunk ->
        service (ChunkInfo.path chunk) = Fulfilled result ->
        VerboseResponse.words result = None ->
        VerboseResponse.segments result = Some segs ->
        segs !! j = Some segment ->
        has_text (DiarizedSegment.text segment) ->
        split_spaces (trim (DiarizedSegment.text segment)) !! k
        = Some token ->
        exists merged,
          transcribeChunks service order chunks = Some (Fulfilled merged)
          /\ uniform_word segment (ChunkInfo.startOffset chunk)
               (length (split_spaces (trim (DiarizedSegment.text segment))))
               k token ∈ merged)
  /\ (forall result offsetSec segs,
        VerboseResponse.words result = None ->
        VerboseResponse.segments result = Some segs ->
        extractWords result offsetSec
        = concat (segment_slices offsetSec <$> segs))
  /\ (forall segment offsetSec k i token (from to : Q),
        DiarizedSegment.start segment
        + of_nat i
          * ((DiarizedSegment.end_ segment - DiarizedSegment.start segment)
             / of_nat k)
        + offsetSec = Fin from ->
        DiarizedSegment.start segment
        + of_nat (i + 1)
          * ((DiarizedSegment.end_ segment - DiarizedSegment.start segment)
             / of_nat k)
        + offsetSec = Fin to ->
        (0 <= from)%Q -> (0 <= to)%Q ->
        exists v1 v2,
          parseOffset (TranscriptionWord.startOffset
                         (uniform_word segment offsetSec k i token)) = Fin v1
          /\ parseOffset (TranscriptionWord.endOffset
                            (uniform_word segment offsetSec k i token))
             = Fin v2
          /\ (Qabs (v1 - from) <= 1 # 2000)%Q
          /\ (Qabs (v2 - to) <= 1 # 2000)%Q
          /\ (forall m : Z,
                (from == inject_Z m / inject_Z 1000)%Q -> (v1 == from)%Q)
          /\ (forall m : Z,
                (to == inject_Z m / inject_Z 1000)%Q -> (v2 == to)%Q))
  /\ extractWords
       (VerboseResponse.mk (lit "a b") None
          (Some [DiarizedSegment.mk (lit "speaker_1") (lit "a b")
                   (of_Z 0) (of_Z 2)]))
       (of_Z 250)
     = [TranscriptionWord.mk (lit "a")
          (Some (lit "250.000s")) (Some (lit "251.000s"))
          (Some (lit "04:10.000")) (Some (lit "04:11.000"))
          (Some (lit "1"));
        TranscriptionWord.mk (lit "b")
          (Some (lit "251.000s")) (Some (lit "252.000s"))
          (Some (lit "04:11.000")) (Some (lit "04:12.000"))
          (Some (lit "1"))].
Proof.
  split; [| split; [| split; [| split; [| split; [| split; [| split]]]]]].
  - intros service order chunks i chunk result ws k w Hperm Hi Hres Hws Hk.
    eexists. split; [by apply transcribeChunks_words |].
    apply elem_of_concat. exists (chunk_words service chunk). split.
    + unfold chunk_words, extractWords. rewrite Hres, Hws.
      apply list_elem_of_fmap. exists w. split; [done |].
      by eapply list_elem_of_lookup_2.
    + apply list_elem_of_fmap. exists chunk. split; [done |].
      by eapply list_elem_of_lookup_2.
  - intros result offsetSec ws Hws. unfold extractWords. by rewrite Hws.
  - intros word from to Hfrom Hto.
    destruct (seconds_text_read_back from Hfrom) as (v1 & Hv1 & Hn1 & He1).
    destruct (seconds_text_read_back to Hto) as (v2 & Hv2 & Hn2 & He2).
    by exists v1, v2.
  - vm_compute. reflexivity.
  - intros service order chunks i chunk result segs j segment k token
      Hperm Hi Hres Hws Hsegs Hj Htext Hk.
    eexists. split; [by apply transcribeChunks_words |].
    apply elem_of_concat. exists (chunk_words service chunk). split.
    + unfold chunk_words. rewrite Hres.
      rewrite (extractWords_segments result _ segs Hws Hsegs).
      apply elem_of_concat.
      exists (segment_slices (ChunkInfo.startOffset chunk) segment). split.
      * rewrite <- words_of_segment_slices.
        destruct (words_of_segment_tokens (ChunkInfo.startOffset chunk)
                    segment Htext) as (_ & _ & ->).
        apply list_elem_of_lookup. exists k.
        by rewrite list_lookup_imap, Hk.
      * apply list_elem_of_fmap. exists segment. split; [done |].
        by eapply list_elem_of_lookup_2.
    + apply list_elem_of_fmap. exists chunk. split; [done |].
      by eapply list_elem_of_lookup_2.
  - apply extractWords_segments.
  - intros segment offsetSec k i token from to Hf Ht Hfrom Hto.
    destruct (seconds_text_read_back from Hfrom) as (v1 & Hv1 & Hn1 & He1).
    destruct (seconds_text_read_back to Hto) as (v2 & Hv2 & Hn2 & He2).
    exists v1, v2. unfold uniform_word.
    cbn [TranscriptionWord.startOffset TranscriptionWord.endOffset].
    rewrite Hf, Ht. done.
  - vm_compute. reflexivity.
Qed.

Lemma merged_word_times_witness :
  exists merged,
    transcribeChunks (example_service false) [2; 0; 1]%nat example_chunks
    = Some (Fulfilled merged)
    /\ timed_word (lit "two") (of_Z 5 + of_Z 250) (of_Z 6 + of_Z 250)
       ∈ merged.
Proof.
  apply (proj1 merged_word_times (example_service false) [2; 0; 1]%nat
           example_chunks 2%nat
           (ChunkInfo.mk (chunkPath 2) (of_Z 250) (of_Z 50))
           (VerboseResponse.mk (lit "two")
              (Some [TimedWord.mk (lit "two") (of_Z 5) (of_Z 6)]) None)
           [TimedWord.mk (lit "two") (of_Z 5) (of_Z 6)] 0%nat
           (TimedWord.mk (lit "two") (of_Z 5) (of_Z 6))).
  - apply (Permutation_cons_append [0; 1]%nat 2%nat).
  - vm_compute. reflexivity.
  - vm_compute. reflexivity.
  - reflexivity.
  - reflexivity.
Defined.

(** C1.  Whatever order the outcomes are in, the merged words are those of
    the outcomes in ascending order of index, each outcome's words kept as
    they are; for the chunked run, whatever order the calls complete in,
    they are the chunks' words in the order of the chunks; and the words of
    one transcription come in the order it lists them. *)
Theorem merged_in_index_order :
  (forall results sorted,
     results ≡ₚ sorted -> ascending sorted ->
     mergeWords results = concat (Outcome.words <$> sorted))
  /\ (forall service order chunks,
        order ≡ₚ seq 0 (length chunks) ->
        transcribeChunks service order chunks
        = Some (Fulfilled (concat (chunk_words service <$> chunks))))
  /\ (forall result offsetSec ws,
        VerboseResponse.words result = Some ws ->
        TranscriptionWord.word <$> extractWords result offsetSec
        = TimedWord.word <$> ws).
Proof.
  split; [| split].
  - intros results sorted Hperm Hasc.
    by rewrite mergeWords_concat, (sort_results_ascending _ _ Hperm Hasc).
  - apply transcribeChunks_words.
  - intros result offsetSec ws Hws. unfold extractWords. rewrite Hws.
    rewrite <- list_fmap_compose. by apply list_fmap_ext.
Qed.

Lemma merged_in_index_order_witness :
  [2; 0; 1]%nat ≡ₚ seq 0 (length example_chunks)
  /\ transcribeChunks (example_service false) [2; 0; 1]%nat example_chunks
     = Some (Fulfilled
               (concat (chunk_words (example_service false)
                          <$> example_chunks))).
Proof.
  assert ([2; 0; 1]%nat ≡ₚ seq 0 (length example_chunks)) as Hperm
    by apply (Permutation_cons_append [0; 1]%nat 2%nat).
  split; [exact Hperm |].
  apply (proj1 (proj2 merged_in_index_order) (example_service false)
           [2; 0; 1]%nat example_chunks Hperm).
Defined.

(** Three chunks of which the last completes first: the words of chunk 0,
    then of chunk 1, then of chunk 2. *)
Example transcribeChunks_out_of_order :
  transcribeChunks (example_service false) [2; 0; 1]%nat example_chunks
  = Some (Fulfilled [timed_word (lit "zero") (of_Z 1) (of_Z 2);
                     timed_word (lit "one") (of_Z 103) (of_Z 104);
                     timed_word (lit "two") (of_Z 255) (of_Z 256)]).
Proof. vm_compute. reflexivity. Qed.

(** The merge sorts by index, not by time: outcomes given as 2, 0, 1 whose
    times run backwards come out as 0, 1, 2. *)
Example mergeWords_sorts_by_index :
  TranscriptionWord.word
  <$> mergeWords
        [Outcome.mk 2 [timed_word (lit "c") (of_Z 1) (of_Z 2)]
           (ChunkInfo.mk (chunkPath 2) (of_Z 0) (of_Z 1));
         Outcome.mk 0 [timed_word (lit "a") (of_Z 9) (of_Z 10);
                       timed_word (lit "a'") (of_Z 7) (of_Z 8)]
           (ChunkInfo.mk (chunkPath 0) (of_Z 0) (of_Z 1));
         Outcome.mk 1 [timed_word (lit "b") (of_Z 5) (of_Z 6)]
           (ChunkInfo.mk (chunkPath 1) (of_Z 0) (of_Z 1))]
  = [lit "a"; lit "a'"; lit "b"; lit "c"].
Proof. vm_compute. reflexivity. Qed.

Lemma concat_transcribed (service : Service) (chunks : list ChunkInfo.t) :
  concat (chunk_words service <$> chunks)
  = concat (chunk_words service
              <$> filter (fun c => transcribed service c) chunks).
Proof.
  induction chunks as [| c chunks IH]; [done |].
  rewrite filter_cons, fmap_cons. cbn [concat]. case_decide as Hc.
  - rewrite fmap_cons. cbn [concat]. by rewrite IH.
  - rewrite <- IH. unfold transcribed in Hc. unfold chunk_words at 1.
    by destruct (service (ChunkInfo.path c)).
Qed.

(** C3.  A chunk whose call fails gives an outcome with its index and no
    word; the dispatch is fulfilled whatever calls fail and whatever order
    they complete in, with one outcome for each chunk, its index attached;
    and the merged words are those of the chunks whose call returned, in
    the order of the chunks. *)
Theorem failed_chunk_is_isolated :
  (forall (service : Service) i chunk err,
     service (ChunkInfo.path chunk) = Rejected err ->
     transcribe_chunk service i chunk = Fulfilled (Outcome.mk i [] chunk))
  /\ (forall service order chunks,
        order ≡ₚ seq 0 (length chunks) ->
        exists outcomes,
          dispatch service order chunks = Some (Fulfilled outcomes)
          /\ Outcome.index <$> outcomes = seq 0 (length chunks)
          /\ Outcome.chunk <$> outcomes = chunks
          /\ transcribeChunks service order chunks
             = Some (Fulfilled
                       (concat (chunk_words service
                                  <$> filter (fun c => transcribed service c)
                                        chunks)))).
Proof.
  split.
  - intros service i chunk err Herr. unfold transcribe_chunk. by rewrite Herr.
  - intros service order chunks Hperm. eexists.
    split; [by apply dispatch_outcomes |]. split; [| split].
    + apply list_eq. intros i.
      rewrite list_lookup_fmap, list_lookup_imap.
      destruct (chunks !! i) as [c|] eqn:Hi; simpl.
      * symmetry. apply lookup_seq. split; [done |]. by eapply lookup_lt_Some.
      * symmetry. apply lookup_ge_None. rewrite length_seq.
        by apply lookup_ge_None.
    + apply list_eq. intros i.
      rewrite list_lookup_fmap, list_lookup_imap. by destruct (chunks !! i).
    + rewrite <- concat_transcribed. by apply transcribeChunks_words.
Qed.

Lemma failed_chunk_is_isolated_witness :
  example_service true (chunkPath 1) = Rejected {| message := lit "timeout" |}
  /\ transcribe_chunk (example_service true) 1
       (ChunkInfo.mk (chunkPath 1) (of_Z 100) (of_Z 150))
     = Fulfilled (Outcome.mk 1 []
                    (ChunkInfo.mk (chunkPath 1) (of_Z 100) (of_Z 150))).
Proof.
  assert (example_service true (chunkPath 1)
          = Rejected {| message := lit "timeout" |}) as Hfail
    by (vm_compute; reflexivity).
  split; [exact Hfail |].
  apply (proj1 failed_chunk_is_isolated (example_service true) 1%nat
           (ChunkInfo.mk (chunkPath 1) (of_Z 100) (of_Z 150)) _ Hfail).
Defined.

(** Chunk 1 of 3 fails: the merged words are those of chunk 0 and of
    chunk 2, with nothing in between. *)
Example transcribeChunks_one_failure :
  transcribeChunks (example_service true) [1; 2; 0]%nat example_chunks
  = Some (Fulfilled [timed_word (lit "zero") (of_Z 1) (of_Z 2);
                     timed_word (lit "two") (of_Z 255) (of_Z 256)]).
Proof. vm_compute. reflexivity. Qed.

(** ** The whole run *)

(** Audio of at most ten minutes goes to the service in one call, and a
    failure of that call is the failure of the run. *)
Lemma transcribe_short_audio (service : Service) (audioPath : jsstring)
  (T : Q) (silenceLog : jsstring) (fuel : nat) (order : list nat) :
  (T <= 600)%Q ->
  transcribe service audioPath (Fin T) silenceLog fuel order
  = Some (match service audioPath with
          | Fulfilled result => Fulfilled (extractWords result (of_Z 0))
          | Rejected err => Rejected err
          end).
Proof.
  intros HT. unfold transcribe, CHUNK_DURATION_SEC.
  assert ((Fin T <=? of_Z 600) = true) as ->; [| done].
  apply leb_Fin. change (inject_Z 600) with 600%Q. lra.
Qed.

(** Longer audio is planned, cut and dispatched, and the run is fulfilled
    with the chunks' words in the order of the chunks, whatever calls fail
    and whatever order they complete in. *)
Lemma transcribe_long_audio (service : Service) (audioPath : jsstring)
  (T : Q) (silenceLog : jsstring) (fuel : nat) :
  (600 < T)%Q ->
  (T <= inject_Z (Z.of_nat fuel) * 600)%Q ->
  exists plan,
    findSplitPoints fuel (detectSilences silenceLog) (Fin T)
      CHUNK_DURATION_SEC = Some plan
    /\ forall order,
         order ≡ₚ seq 0 (length plan) ->
         transcribe service audioPath (Fin T) silenceLog fuel order
         = Some (Fulfilled
                   (concat (chunk_words service
                              <$> snd (splitAudio audioPath plan (Fin T))))).
Proof.
  intros HT Hfuel. unfold transcribe, findSplitPoints, CHUNK_DURATION_SEC.
  destruct (target_loop_ends (detectSilences silenceLog) T (inject_Z 600) fuel
              ltac:(q_const) (inject_Z 600) [of_Z 0]) as [plan Hplan].
  { change (inject_Z 600) with 600%Q. lra. }
  exists plan. split; [exact Hplan |]. intros order Hperm.
  assert ((Fin T <=? of_Z 600) = false) as ->.
  { apply not_true_iff_false. intros Hle%leb_Fin.
    change (inject_Z 600) with 600%Q in Hle. lra. }
  unfold of_Z at 1 2. rewrite Hplan. simpl.
  apply transcribeChunks_words.
  unfold splitAudio. simpl. by rewrite length_fmap, length_imap.
Qed.

(** * Further properties of the code *)

(** ** Split planner: termination, size of the plan, place of the offsets *)

Section PlannerMore.

Variable silences : list Silence.t.

Lemma target_loop_runs_on (T c : Q) (fuel : nat) :
  (c <= 0)%Q ->
  forall (t : Q) (splits : list number),
    (t < T)%Q ->
    target_loop fuel silences (Fin T) (Fin c) (Fin t) splits = None.
Proof.
  intros Hc. induction fuel as [| fuel IH]; intros t splits Ht;
    rewrite target_loop_unfold, (proj2 (ltb_Fin t T) Ht); [done |].
  rewrite search_windows_first. simpl. apply IH. lra.
Qed.

(** The offset chosen for a finite target is the target itself or the start
    of one of the silences. *)
Lemma planned_offset_source (t : Q) :
  planned_offset silences (Fin t) = Fin t
  \/ exists s, s ∈ silences /\ planned_offset silences (Fin t) = Silence.start s.
Proof.
  unfold planned_offset.
  destruct (first_window_cases silences (Fin t) (window_of <$> seq 1 6))
    as [-> | (w & Hw & -> & Hsome)]; [by left |].
  apply window_of_cases in Hw as (q & -> & Hq).
  pose proof (scan_best silences t q) as Hbest. unfold best_of in Hbest.
  unfold chosen.
  destruct (fst (scan silences (Fin t) (Fin q) no_best)) as [b|];
    [| by destruct Hsome].
  destruct Hbest as ((Hin & _) & _). right. eauto.
Qed.

End PlannerMore.

(** With a target chunk length of zero or less, below the total duration,
    the loop over the targets never ends: no amount of fuel gives a plan. *)
Theorem findSplitPoints_never_returns (silences : list Silence.t) (T c : Q)
  (fuel : nat) :
  (c <= 0)%Q -> (c < T)%Q ->
  findSplitPoints fuel silences (Fin T) (Fin c) = None.
Proof.
  intros Hc HT. unfold findSplitPoints. by apply target_loop_runs_on.
Qed.

Lemma findSplitPoints_never_returns_witness :
  (0 <= 0)%Q /\ (0 < 10)%Q
  /\ findSplitPoints 1000 [Silence.mk (of_Z 3) (of_Z 5)] (Fin 10) (Fin 0)
     = None.
Proof.
  split; [q_const |]. split; [q_const |].
  apply (findSplitPoints_never_returns
           [Silence.mk (of_Z 3) (of_Z 5)] 10 0 1000); q_const.
Defined.

(** Every offset after the first lies within 180 seconds of its checkpoint,
    and is that checkpoint or the start of one of the silences given: the
    planner never cuts at the end of a silence or at a time of its own. *)
Theorem findSplitPoints_offsets_near (silences : list Silence.t) (T c : Q)
  (fuel : nat) :
  (0 < c)%Q ->
  (T <= inject_Z (Z.of_nat fuel) * c)%Q ->
  exists plan,
    findSplitPoints fuel silences (Fin T) (Fin c) = Some plan
    /\ forall k offset,
         plan !! S k = Some offset ->
         exists t p,
           checkpoint (Fin c) k = Fin t
           /\ offset = Fin p
           /\ (Qabs (p - t) <= 180)%Q
           /\ (p == t \/ exists s, s ∈ silences /\ Silence.start s = Fin p)%Q.
Proof.
  intros Hc Hfuel. unfold findSplitPoints.
  destruct (target_loop_ends silences T c fuel Hc c [of_Z 0])
    as [plan Hplan]; [lra |].
  exists plan. split; [done |].
  apply target_loop_plan in Hplan as (rest & -> & Hrest & _).
  intros k offset Hk. change (([of_Z 0] ++ rest) !! S k) with (rest !! k) in Hk.
  destruct (Hrest k (lookup_lt_Some _ _ _ Hk)) as [_ Hpick].
  fold (checkpoint (Fin c) k) in Hpick.
  destruct (checkpoint_Fin c k) as (t & Ht & _). rewrite Ht in Hpick.
  rewrite Hk in Hpick. injection Hpick as ->.
  destruct (planned_offset_near silences t) as (p & Hp & Hp1 & Hp2).
  exists t, p. split; [done |]. split; [done |]. split.
  - apply Qabs_Qle_condition. split; lra.
  - destruct (planned_offset_source silences t) as [Hsrc | (s & Hin & Hsrc)].
    + left. rewrite Hp in Hsrc. by injection Hsrc as ->.
    + right. exists s. split; [done |]. by rewrite <- Hsrc.
Qed.

Lemma findSplitPoints_offsets_near_witness :
  (0 < 600)%Q
  /\ (1000 <= inject_Z (Z.of_nat 2) * 600)%Q
  /\ exists plan,
       findSplitPoints 2 [Silence.mk (of_Z 650) (of_Z 655)]
         (Fin 1000) (Fin 600) = Some plan
       /\ length plan = 2%nat.
Proof.
  split; [q_const |]. split; [q_const |].
  destruct (findSplitPoints_offsets_near
              [Silence.mk (of_Z 650) (of_Z 655)] 1000 600 2)
    as (plan & Hplan & _); [q_const | q_const |].
  exists plan. split; [exact Hplan |].
  vm_compute in Hplan. injection Hplan as <-. reflexivity.
Defined.

(** The plan has one offset for every started chunk length of the audio:
    the total duration divided by the chunk length, rounded up, and one
    offset at least. *)
Theorem findSplitPoints_length (silences : list Silence.t) (T c : Q)
  (fuel : nat) :
  (0 < c)%Q ->
  (T <= inject_Z (Z.of_nat fuel) * c)%Q ->
  exists plan,
    findSplitPoints fuel silences (Fin T) (Fin c) = Some plan
    /\ Z.of_nat (length plan) = Z.max 1 (Qceiling (T / c)).
Proof.
  intros Hc Hfuel. unfold findSplitPoints.
  destruct (target_loop_ends silences T c fuel Hc c [of_Z 0])
    as [plan Hplan]; [lra |].
  exists plan. split; [done |].
  apply target_loop_plan in Hplan as (rest & -> & Hrest & Hend).
  fold (checkpoint (Fin c) (length rest)) in Hend.
  destruct (checkpoint_Fin c (length rest)) as (qn & Hqn & Hn).
  rewrite Hqn in Hend. apply Qltb_ge in Hend. rewrite Hn in Hend.
  rewrite length_app. change (length [of_Z 0]) with 1%nat.
  set (n := length rest) in *.
  assert (n = 0%nat \/ (c * inject_Z (Z.of_nat n) < T)%Q) as Hlow.
  { destruct n as [| n']; [by left |]. right.
    destruct (Hrest n' ltac:(lia)) as [Hlt _].
    fold (checkpoint (Fin c) n') in Hlt.
    destruct (checkpoint_Fin c n') as (q & Hq & Hqv). rewrite Hq in Hlt.
    apply ltb_Fin in Hlt. by rewrite Hqv in Hlt. }
  assert (T / c <= inject_Z (Z.of_nat (S n)))%Q as Hup.
  { apply Qle_shift_div_r; [done |]. lra. }
  pose proof (Qle_ceiling (T / c)) as Hc1.
  pose proof (Qceiling_lt (T / c)) as Hc2.
  assert (Qceiling (T / c) <= Z.of_nat (S n))%Z as Hle.
  { apply Z.lt_succ_r. rewrite Z.lt_succ_r, <- Z.lt_pred_le, Zlt_Qlt.
    eapply Qlt_le_trans; [| exact Hup].
    replace (Z.pred (Qceiling (T / c))) with (Qceiling (T / c) - 1)%Z by lia.
    exact Hc2. }
  destruct Hlow as [Hz | Hlow].
  - rewrite Hz in *. simpl in Hle. simpl. lia.
  - assert (inject_Z (Z.of_nat n) < T / c)%Q as Hn'.
    { apply Qlt_shift_div_l; [done |]. lra. }
    assert (Z.of_nat n < Qceiling (T / c))%Z.
    { rewrite Zlt_Qlt. eapply Qlt_le_trans; [exact Hn' | exact Hc1]. }
    lia.
Qed.

Lemma findSplitPoints_length_witness :
  (0 < 600)%Q
  /\ (2000 <= inject_Z (Z.of_nat 4) * 600)%Q
  /\ exists plan,
       findSplitPoints 4 [] (Fin 2000) (Fin 600) = Some plan
       /\ Z.of_nat (length plan) = 4%Z.
Proof.
  split; [q_const |]. split; [q_const |].
  destruct (findSplitPoints_length [] 2000 600 4)
    as (plan & Hplan & Hlen); [q_const | q_const |].
  exists plan. split; [exact Hplan |]. rewrite Hlen. reflexivity.
Defined.

(** ** Planner and extractor together *)

Lemma increasing_lookup (l : list number) (i : nat) (x y : number) :
  increasing l = true ->
  l !! i = Some x -> l !! S i = Some y -> (x <? y) = true.
Proof.
  revert i. induction l as [| a [| b l] IH]; intros i Hinc Hx Hy;
    [done | by destruct i |].
  simpl in Hinc. apply andb_true_iff in Hinc as [Hab Hinc].
  destruct i as [| i].
  - simpl in Hx, Hy. by injection Hx as <-; injection Hy as <-.
  - by apply (IH i).
Qed.

(** When every silence starts inside the audio, every planned offset lies
    inside the audio as well. *)
Lemma findSplitPoints_inside (silences : list Silence.t) (T c : Q)
  (fuel : nat) (plan : list number) :
  (0 < T)%Q ->
  (forall s, s ∈ silences -> (Silence.start s <? Fin T) = true) ->
  findSplitPoints fuel silences (Fin T) (Fin c) = Some plan ->
  forall offset, offset ∈ plan -> exists p, offset = Fin p /\ (p < T)%Q.
Proof.
  intros HT Hsil Hplan offset Hin. unfold findSplitPoints in Hplan.
  apply target_loop_plan in Hplan as (rest & -> & Hrest & _).
  apply elem_of_app in Hin as [->%list_elem_of_singleton | Hin].
  { exists (inject_Z 0). split; [done |]. by change (inject_Z 0) with 0%Q. }
  apply list_elem_of_lookup in Hin as [k Hk].
  destruct (Hrest k (lookup_lt_Some _ _ _ Hk)) as [Hlt Hpick].
  fold (checkpoint (Fin c) k) in Hlt, Hpick.
  destruct (checkpoint_Fin c k) as (t & Ht & _). rewrite Ht in Hlt, Hpick.
  rewrite Hk in Hpick. injection Hpick as ->.
  destruct (planned_offset_near silences t) as (p & Hp & _).
  exists p. split; [done |].
  destruct (planned_offset_source silences t) as [Hsrc | (s & Hs & Hsrc)].
  - rewrite Hp in Hsrc. injection Hsrc as ->. by apply ltb_Fin.
  - apply Hsil in Hs. rewrite <- Hsrc, Hp in Hs. by apply ltb_Fin.
Qed.

(** For audio longer than a target chunk length above 360 seconds, with
    every silence starting inside the audio, each chunk cut at the planned
    offsets has a finite duration above zero. *)
Theorem planned_chunks_positive (filePath : jsstring)
  (silences : list Silence.t) (T c : Q) (fuel : nat) :
  (360 < c)%Q -> (c < T)%Q ->
  (T <= inject_Z (Z.of_nat fuel) * c)%Q ->
  (forall s, s ∈ silences -> (Silence.start s <? Fin T) = true) ->
  exists plan,
    findSplitPoints fuel silences (Fin T) (Fin c) = Some plan
    /\ forall chunk,
         chunk ∈ snd (splitAudio filePath plan (Fin T)) ->
         exists d, ChunkInfo.duration chunk = Fin d /\ (0 < d)%Q.
Proof.
  intros Hc HT Hfuel Hsil.
  destruct (target_loop_ends silences T c fuel ltac:(lra) c [of_Z 0])
    as [plan Hplan]; [lra |].
  fold (findSplitPoints fuel silences (Fin T) (Fin c)) in Hplan.
  exists plan. split; [done |].
  assert (increasing plan = true) as Hinc.
  { apply (target_loop_increasing silences (Fin T) c fuel Hc c [of_Z 0] plan);
      [done | done |].
    intros x ->%list_elem_of_singleton. exists (inject_Z 0).
    split; [done |]. change (inject_Z 0) with 0%Q. lra. }
  pose proof (findSplitPoints_inside silences T c fuel plan ltac:(lra)
                Hsil Hplan) as Hinside.
  intros chunk [i Hi]%list_elem_of_lookup.
  rewrite splitAudio_chunks_lookup in Hi.
  destruct (plan !! i) as [o|] eqn:Ho; [| done]. injection Hi as <-.
  destruct (Hinside o) as (p & -> & Hp); [by eapply list_elem_of_lookup_2 |].
  unfold chunk_end. simpl.
  destruct (plan !! S i) as [o'|] eqn:Ho'; simpl.
  - destruct (Hinside o') as (p' & -> & _);
      [by eapply list_elem_of_lookup_2 |].
    pose proof (increasing_lookup plan i _ _ Hinc Ho Ho') as Hlt.
    apply ltb_Fin in Hlt. eexists. split; [done |]. lra.
  - eexists. split; [done |]. lra.
Qed.

Lemma planned_chunks_positive_witness :
  (360 < 600)%Q /\ (600 < 1000)%Q
  /\ (1000 <= inject_Z (Z.of_nat 2) * 600)%Q
  /\ exists plan,
       findSplitPoints 2 [Silence.mk (of_Z 650) (of_Z 655)]
         (Fin 1000) (Fin 600) = Some plan
       /\ forall chunk,
            chunk ∈ snd (splitAudio (lit "a.wav") plan (Fin 1000)) ->
            exists d, ChunkInfo.duration chunk = Fin d /\ (0 < d)%Q.
Proof.
  split; [q_const |]. split; [q_const |]. split; [q_const |].
  apply (planned_chunks_positive (lit "a.wav")
           [Silence.mk (of_Z 650) (of_Z 655)] 1000 600 2);
    [q_const | q_const | q_const |].
  intros s ->%list_elem_of_singleton. vm_compute. reflexivity.
Defined.

(** ** Chunk extractor: total length and file names *)

Lemma digits_of_N_inj (m n : N) : digits_of_N m = digits_of_N n -> m = n.
Proof.
  intros H. by rewrite <- (digits_value_of_N m), H, digits_value_of_N.
Qed.

Lemma chunkPath_inj (i j : nat) : chunkPath i = chunkPath j -> i = j.
Proof.
  unfold chunkPath. intros H.
  apply app_inv_head, app_inv_tail, digits_of_N_inj in H. lia.
Qed.

(** The chunks of one run are written to pairwise different files, whatever
    the offsets are. *)
Theorem splitAudio_paths_distinct (filePath : jsstring)
  (splitPoints : list number) (totalDuration : number) :
  NoDup (ChunkInfo.path <$> snd (splitAudio filePath splitPoints totalDuration)).
Proof.
  apply NoDup_alt. intros i j path Hi Hj.
  rewrite list_lookup_fmap, splitAudio_chunks_lookup in Hi, Hj.
  destruct (splitPoints !! i); [| done]. destruct (splitPoints !! j); [| done].
  cbn -[chunkPath] in Hi, Hj. apply chunkPath_inj. congruence.
Qed.

Lemma splitAudio_durations (filePath : jsstring) (T : Q) (os : list Q) :
  forall (o : Q) (pre : list number),
  exists ds,
    ChunkInfo.duration
      <$> drop (length pre)
            (snd (splitAudio filePath (pre ++ (Fin <$> o :: os)) (Fin T)))
    = Fin <$> ds
    /\ (Qsum ds == T - o)%Q.
Proof.
  induction os as [| o' os IH]; intros o pre.
  - exists [(T + - o)%Q]. split; [| simpl; lra].
    apply list_eq. intros k.
    rewrite list_lookup_fmap, lookup_drop, splitAudio_chunks_lookup.
    unfold chunk_end. destruct k as [| k].
    + rewrite Nat.add_0_r.
      rewrite (lookup_app_r pre _ (length pre)), Nat.sub_diag by lia.
      rewrite (lookup_ge_None_2 _ (S (length pre)));
        [done | rewrite length_app; simpl; lia].
    + rewrite (lookup_ge_None_2 _ (length pre + S k));
        [done | rewrite length_app; simpl; lia].
  - destruct (IH o' (pre ++ [Fin o])) as (ds & Hds & Hsum).
    rewrite <- app_assoc, length_app, Nat.add_1_r in Hds.
    change ([Fin o] ++ (Fin <$> o' :: os)) with (Fin <$> o :: o' :: os) in Hds.
    exists ((o' + - o)%Q :: ds). split; [| simpl; lra].
    erewrite drop_S; cycle 1.
    { rewrite splitAudio_chunks_lookup.
      rewrite (lookup_app_r pre _ (length pre)), Nat.sub_diag by lia.
      simpl. reflexivity. }
    rewrite fmap_cons, Hds.
    f_equal. unfold chunk_end.
    rewrite (lookup_app_r pre _ (S (length pre))) by lia.
    replace (S (length pre) - length pre)%nat with 1%nat by lia. done.
Qed.

(** For finite offsets the chunk durations add up to the total duration
    less the first offset, in whatever order the offsets come: what one
    chunk loses to a misplaced offset another one gains. *)
Theorem splitAudio_durations_sum (filePath : jsstring) (T o : Q)
  (os : list Q) :
  exists ds,
    ChunkInfo.duration <$> snd (splitAudio filePath (Fin <$> o :: os) (Fin T))
    = Fin <$> ds
    /\ (Qsum ds == T - o)%Q.
Proof. apply (splitAudio_durations filePath T os o []). Qed.

(** ** Words: the clock text and the tiling of a segment *)

Lemma all_from_spec (P : Z -> bool) (count : nat) :
  forall from,
    all_from P count from = true ->
    forall z, (from <= z < from + Z.of_nat count)%Z -> P z = true.
Proof.
  induction count as [| count IH]; intros from Hall z Hz; [lia |].
  cbn [all_from] in Hall. apply andb_true_iff in Hall as [Hfrom Hall].
  destruct (Z.eq_dec z from) as [-> | Hne]; [done |].
  apply (IH (from + 1)%Z Hall). lia.
Qed.

Lemma all_below (P : Z -> bool) (n : Z) :
  all_from P (Z.to_nat n) 0 = true ->
  forall z, (0 <= z < n)%Z -> P z = true.
Proof. intros Hall z Hz. apply (all_from_spec P _ 0%Z Hall). lia. Qed.

Lemma Qfloor_unique (x : Q) (n : Z) :
  (inject_Z n <= x)%Q -> (x < inject_Z (n + 1))%Q -> Qfloor x = n.
Proof.
  intros Hlo Hhi.
  pose proof (Qfloor_le x) as Hfl. pose proof (Qlt_floor x) as Hfh.
  assert (Qfloor x < n + 1)%Z
    by (rewrite Zlt_Qlt; eapply Qle_lt_trans; [exact Hfl | exact Hhi]).
  assert (n < Qfloor x + 1)%Z
    by (rewrite Zlt_Qlt; eapply Qle_lt_trans; [exact Hlo | exact Hfh]).
  lia.
Qed.

Lemma minutes_two_digits (m : Z) :
  (0 <= m < 100)%Z -> two_digits (padStart 2 48%N (digits_of_Z m)) = true.
Proof.
  apply (all_below
           (fun m => two_digits (padStart 2 48%N (digits_of_Z m))) 100).
  vm_compute. reflexivity.
Qed.

Lemma seconds_six_digits (n : Z) :
  (0 <= n < 60001)%Z ->
  seconds_digits (padStart 6 48%N (fixed_of 3 n)) = true.
Proof.
  apply (all_below
           (fun n => seconds_digits (padStart 6 48%N (fixed_of 3 n))) 60001).
  vm_compute. reflexivity.
Qed.

Lemma fixed_digits_of (f : nat) (a : Q) :
  fixed_digits f a
  = fixed_of f (Qfloor (a * inject_Z (10 ^ Z.of_nat f)%Z + (1 # 2))).
Proof. reflexivity. Qed.

(** What [toMMSS] computes for a time that is not negative: the whole
    minutes [m], and the seconds left over rounded to milliseconds. *)
Lemma toMMSS_parts (q : Q) :
  (0 <= q)%Q ->
  let m := Qfloor (q / 60) in
  toMMSS (Fin q)
  = padStart 2 48%N (digits_of_Z m) ++ lit ":"
      ++ padStart 6 48%N
           (fixed_of 3 (Qfloor ((q - 60 * inject_Z m) * 1000 + (1 # 2))))
  /\ (0 <= q - 60 * inject_Z m < 60)%Q.
Proof.
  intros Hq m.
  assert (0 <= q / 60)%Q as Hpos.
  { apply Qle_shift_div_l; [done | lra]. }
  pose proof (Qfloor_le (q / 60)) as Hlo.
  pose proof (Qlt_floor (q / 60)) as Hhi. fold m in Hlo, Hhi.
  assert (q == 60 * (q / 60))%Q as Hq60 by (field; done).
  assert (0 <= q - 60 * inject_Z m < 60)%Q as Hsecs.
  { rewrite inject_Z_plus in Hhi. change (inject_Z 1) with 1%Q in Hhi.
    set (x := (q / 60)%Q) in *. lra. }
  split; [| exact Hsecs].
  unfold toMMSS, of_Z. change (inject_Z 60) with 60%Q.
  change (Fin q / Fin 60) with (Fin (q / 60)). unfold floor, toString.
  rewrite Qfloor_Z. fold m.
  change (Fin q %% Fin 60) with (Fin (q - 60 * inject_Z (Qtrunc (q / 60)))).
  unfold Qtrunc. rewrite (proj2 (Qltb_ge (q / 60) 0) Hpos). fold m.
  unfold toFixed. rewrite (proj2 (Qltb_ge _ 0) (proj1 Hsecs)).
  by rewrite fixed_digits_of.
Qed.

(** Below 100 minutes [toMMSS] gives the form [MM:SS.SSS]: two digits, a
    colon, two digits, a point and three digits. *)
Theorem toMMSS_clock (q : Q) :
  (0 <= q)%Q -> (q < 6000)%Q -> clock_text (toMMSS (Fin q)) = true.
Proof.
  intros Hq Hlt. destruct (toMMSS_parts q Hq) as [-> [Hs0 Hs60]].
  set (m := Qfloor (q / 60)).
  set (n := Qfloor ((q - 60 * inject_Z m) * 1000 + (1 # 2))).
  assert (0 <= m < 100)%Z as Hm.
  { subst m. split.
    - apply Qfloor_resp_le with (x := 0%Q).
      apply Qle_shift_div_l; [done | lra].
    - apply Z.lt_nge. intros Hge. rewrite Zle_Qle in Hge.
      pose proof (Qfloor_le (q / 60)) as Hlo.
      assert (q == 60 * (q / 60))%Q as Hq60 by (field; done).
      change (inject_Z 100) with 100%Q in Hge.
      set (x := (q / 60)%Q) in *. lra. }
  assert (0 <= n < 60001)%Z as Hn.
  { subst n. fold m in Hs0, Hs60. split.
    - apply Qfloor_resp_le with (x := 0%Q). lra.
    - apply Z.lt_nge. intros Hge. rewrite Zle_Qle in Hge.
      pose proof (Qfloor_le ((q - 60 * inject_Z m) * 1000 + (1 # 2))) as Hlo.
      change (inject_Z 60001) with 60001%Q in Hge. lra. }
  pose proof (minutes_two_digits m Hm) as Hmm.
  pose proof (seconds_six_digits n Hn) as Hss.
  destruct (padStart 2 48%N (digits_of_Z m)) as [| a [| b [| ? ?]]];
    try discriminate.
  change ([a; b] ++ lit ":" ++ ?r) with (a :: b :: 58%N :: r).
  unfold clock_text. by rewrite Hmm, Hss.
Qed.

Lemma toMMSS_clock_witness :
  (0 <= 754321 # 1000)%Q /\ (754321 # 1000 < 6000)%Q
  /\ clock_text (toMMSS (Fin (754321 # 1000))) = true
  /\ toMMSS (Fin (754321 # 1000)) = lit "12:34.321".
Proof.
  split; [q_const |]. split; [q_const |].
  split; [apply (toMMSS_clock (754321 # 1000)); q_const |].
  vm_compute. reflexivity.
Defined.

(** [toMMSS] does not carry rounded seconds into the minutes: a time less
    than half a millisecond below a full minute is written with the
    seconds [60.000] after the minutes already begun. *)
Theorem toMMSS_sixty (q : Q) :
  (0 <= q)%Q ->
  (59 + (9995 # 10000) <= q - 60 * inject_Z (Qfloor (q / 60)))%Q ->
  toMMSS (Fin q)
  = padStart 2 48%N (digits_of_Z (Qfloor (q / 60))) ++ lit ":60.000".
Proof.
  intros Hq Hnear. destruct (toMMSS_parts q Hq) as [-> [Hs0 Hs60]].
  set (m := Qfloor (q / 60)) in *.
  set (n := Qfloor ((q - 60 * inject_Z m) * 1000 + (1 # 2))).
  assert (n = 60000%Z) as ->; [| reflexivity].
  subst n. apply Qfloor_unique.
  - change (inject_Z 60000) with 60000%Q. lra.
  - change (inject_Z (60000 + 1)) with 60001%Q. lra.
Qed.

Lemma toMMSS_sixty_witness :
  (0 <= 1199996 # 10000)%Q
  /\ (59 + (9995 # 10000)
      <= (1199996 # 10000)
         - 60 * inject_Z (Qfloor ((1199996 # 10000) / 60)))%Q
  /\ toMMSS (Fin (1199996 # 10000)) = lit "01:60.000".
Proof.
  split; [q_const |]. split; [q_const |].
  rewrite (toMMSS_sixty (1199996 # 10000)); [reflexivity | q_const | q_const].
Defined.

Lemma Qltb_comp (a b c : Q) : (a == b)%Q -> Qltb a c = Qltb b c.
Proof.
  intros Hab. destruct (Qltb b c) eqn:Hb.
  - apply Qltb_lt. apply Qltb_lt in Hb. by rewrite Hab.
  - apply Qltb_ge. apply Qltb_ge in Hb. by rewrite Hab.
Qed.

Lemma toFixed_comp (f : nat) (a b : Q) :
  (a == b)%Q -> toFixed f (Fin a) = toFixed f (Fin b).
Proof.
  intros Hab. unfold toFixed. rewrite (Qltb_comp a b 0 Hab).
  rewrite !fixed_digits_of. destruct (Qltb b 0); by rewrite Hab.
Qed.

Lemma seconds_text_comp (a b : Q) :
  (a == b)%Q -> seconds_text (Fin a) = seconds_text (Fin b).
Proof. intros Hab. unfold seconds_text. by rewrite (toFixed_comp 3 a b). Qed.

Lemma toMMSS_comp (a b : Q) :
  (a == b)%Q -> toMMSS (Fin a) = toMMSS (Fin b).
Proof.
  intros Hab. unfold toMMSS, of_Z. change (inject_Z 60) with 60%Q.
  change (Fin a / Fin 60) with (Fin (a / 60)).
  change (Fin b / Fin 60) with (Fin (b / 60)).
  change (Fin a %% Fin 60) with (Fin (a - 60 * inject_Z (Qtrunc (a / 60)))).
  change (Fin b %% Fin 60) with (Fin (b - 60 * inject_Z (Qtrunc (b / 60)))).
  assert (Qtrunc (a / 60) = Qtrunc (b / 60)) as Htr.
  { unfold Qtrunc. rewrite (Qltb_comp (a / 60) (b / 60) 0) by (by rewrite Hab).
    unfold Qceiling. destruct (Qltb (b / 60) 0); by rewrite Hab. }
  unfold floor, toString. rewrite Htr.
  rewrite (toFixed_comp 3 (a - 60 * inject_Z (Qtrunc (b / 60)))
             (b - 60 * inject_Z (Qtrunc (b / 60)))) by (by rewrite Hab).
  by rewrite Hab.
Qed.

(** The words of a segment tile it: each word ends where the next one
    begins, the first begins at the segment's start and the last ends at
    the segment's end (both shifted by the offset), in the seconds text and
    in the clock text alike. *)
Theorem words_of_segment_tiling (speaker text : jsstring) (a b o : Q) :
  let segment := DiarizedSegment.mk speaker text (Fin a) (Fin b) in
  let ws := words_of_segment (Fin o) segment in
  (forall w w',
     adjacent ws w w' ->
     TranscriptionWord.endOffset w = TranscriptionWord.startOffset w'
     /\ TranscriptionWord.endTime w = TranscriptionWord.startTime w')
  /\ (forall w,
        head ws = Some w ->
        TranscriptionWord.startOffset w = Some (seconds_text (Fin (a + o)))
        /\ TranscriptionWord.startTime w = Some (toMMSS (Fin (a + o))))
  /\ (forall w,
        last ws = Some w ->
        TranscriptionWord.endOffset w = Some (seconds_text (Fin (b + o)))
        /\ TranscriptionWord.endTime w = Some (toMMSS (Fin (b + o)))).
Proof.
  intros segment ws. subst ws segment. unfold words_of_segment.
  cbn [DiarizedSegment.text DiarizedSegment.start DiarizedSegment.end_].
  set (tokens := split_spaces (trim text)).
  destruct (bool_decide (length tokens = 0%nat)) eqn:Hlen; cbn [orb].
  { split; [by intros w w' (i & Hi & _) |]. split; by intros w. }
  destruct (bool_decide (tokens !! 0%nat = Some [])).
  { split; [by intros w w' (i & Hi & _) |]. split; by intros w. }
  apply bool_decide_eq_false in Hlen.
  set (k := length tokens) in *.
  assert (Qeq_bool (inject_Z (Z.of_nat k)) 0 = false) as Hk.
  { apply not_true_iff_false. intros Heq%Qeq_bool_iff.
    unfold Qeq in Heq. simpl in Heq. lia. }
  assert ((Fin b - Fin a) / of_nat k
          = Fin ((b + - a) / inject_Z (Z.of_nat k))) as Hwd.
  { unfold of_nat, of_Z, sub, neg, add, div. by rewrite Hk. }
  rewrite Hwd. split; [| split].
  - intros w w' (i & Hi & Hi'). rewrite list_lookup_imap in Hi, Hi'.
    destruct (tokens !! i); [| done]. destruct (tokens !! S i); [| done].
    injection Hi as <-. injection Hi' as <-.
    unfold word_of_token. cbn [TranscriptionWord.endOffset
      TranscriptionWord.startOffset TranscriptionWord.endTime
      TranscriptionWord.startTime]. by rewrite Nat.add_1_r.
  - intros w Hw. rewrite head_lookup, list_lookup_imap in Hw.
    destruct (tokens !! 0%nat); [| done]. injection Hw as <-.
    unfold word_of_token. cbn [TranscriptionWord.startOffset
      TranscriptionWord.startTime DiarizedSegment.start].
    change (Fin a + of_nat 0 * Fin ?w + Fin o) with (Fin (a + 0 * w + o)).
    split; f_equal; [apply seconds_text_comp | apply toMMSS_comp]; ring.
  - intros w Hw. rewrite last_lookup, length_imap, list_lookup_imap in Hw.
    fold k in Hw. destruct (tokens !! pred k); [| done]. injection Hw as <-.
    unfold word_of_token. cbn [TranscriptionWord.endOffset
      TranscriptionWord.endTime DiarizedSegment.start].
    replace (pred k + 1)%nat with k by lia.
    change (Fin a + of_nat k * Fin ?w + Fin o)
      with (Fin (a + inject_Z (Z.of_nat k) * w + o)).
    assert (~ inject_Z (Z.of_nat k) == 0)%Q as Hk0
      by (intros Heq%Qeq_bool_iff; congruence).
    split; f_equal; [apply seconds_text_comp | apply toMMSS_comp];
      by field.
Qed.

(** ** Silence detector: the values read and the log read in parts *)

Section DetectorMore.







Lemma split_char_from_app (sep : N) (text more : jsstring) :
  forall cur,
    split_char_from sep cur (text ++ sep :: more)
    = split_char_from sep cur text ++ split_char_from sep [] more.
Proof.
  induction text as [| c text IH]; intros cur; simpl.
  - by rewrite N.eqb_refl.
  - destruct (c =? sep)%N; [by rewrite IH | apply IH].
Qed.

End DetectorMore.


(** A marker whose value holds no digit is read as not a number. *)
Example detectSilences_points :
  detectSilences (lit "silence_start: ." ++ 10%N :: lit "silence_end: 4.5")
  = [Silence.mk NaN (Fin (9 # 2))].
Proof. vm_compute. reflexivity. Qed.

(** The log can be read as it grows: what follows a line break adds
    intervals at the end, and never changes the intervals found before
    it. *)
Theorem detectSilences_line_break (text more : jsstring) :
  detectSilences text `prefix_of` detectSilences (text ++ 10%N :: more).
Proof.
  unfold detectSilences, split_char.
  rewrite split_char_from_app, fold_left_app.
  destruct (fold_left detect_line (split_char_from 10%N [] text) ([], None))
    as [silences currentStart].
  rewrite detect_lines_pairs. cbn [fst]. by eexists.
Qed.

(** ** Merge: no word lost *)

(** Whatever the indexes of the outcomes are (repeated, or with gaps), the
    merge keeps every word of every outcome, and adds none. *)
Theorem mergeWords_keeps_words (results : list Outcome.t) :
  mergeWords results ≡ₚ concat (Outcome.words <$> results).
Proof.
  rewrite mergeWords_concat.
  pose proof (sort_results_perm results) as Hperm.
  induction Hperm as [| r l l' _ IH | r r' l | l l' l'' _ IH _ IH'];
    simpl; [done | by rewrite IH | | by rewrite IH].
  rewrite !app_assoc. f_equiv. apply Permutation_app_comm.
Qed.

(** ** The whole run: both branches, and a duration that cannot be read *)

Lemma transcribe_short_audio_witness :
  (300 <= 600)%Q
  /\ transcribe (example_service false) (chunkPath 0) (Fin 300) []
       0 []
     = Some (Fulfilled [timed_word (lit "zero") (of_Z 1) (of_Z 2)]).
Proof.
  split; [q_const |].
  rewrite (transcribe_short_audio (example_service false) (chunkPath 0)
             300 [] 0 []); [reflexivity | q_const].
Defined.

Lemma transcribe_long_audio_witness :
  (600 < 1000)%Q
  /\ (1000 <= inject_Z (Z.of_nat 2) * 600)%Q
  /\ exists plan,
       findSplitPoints 2 (detectSilences example_log) (Fin 1000)
         CHUNK_DURATION_SEC = Some plan
       /\ transcribe (example_service true) (lit "a.wav") (Fin 1000)
            example_log 2 [1; 0]%nat
          = Some (Fulfilled
                    (concat (chunk_words (example_service true)
                               <$> snd (splitAudio (lit "a.wav") plan
                                          (Fin 1000))))).
Proof.
  split; [q_const |]. split; [q_const |].
  destruct (transcribe_long_audio (example_service true) (lit "a.wav")
              1000 example_log 2) as (plan & Hplan & Hrun);
    [q_const | q_const |].
  exists plan. split; [exact Hplan |]. apply Hrun.
  assert (length plan = 2%nat) as ->.
  { vm_compute in Hplan. injection Hplan as <-. reflexivity. }
  apply Permutation_swap.
Defined.

Lemma getAudioDuration_blank (text : jsstring) :
  Forall (fun c => is_space c = true) text -> getAudioDuration text = NaN.
Proof.
  intros Hblank. unfold getAudioDuration. by rewrite (trim_blank _ Hblank).
Qed.

(** When ffprobe writes no duration, the duration read is not a number, and
    the run goes on: it takes the branch of long audio, plans the single
    offset 0 whatever the silences are, cuts one chunk whose length is not
    a number, and ends with the words of that chunk, or with no word when
    the call for it fails. *)
Theorem transcribe_unreadable_duration (service : Service)
  (audioPath stdout silenceLog : jsstring) (fuel : nat) :
  Forall (fun c => is_space c = true) stdout ->
  getAudioDuration stdout = NaN
  /\ findSplitPoints fuel (detectSilences silenceLog)
       (getAudioDuration stdout) CHUNK_DURATION_SEC = Some [of_Z 0]
  /\ transcribe service audioPath (getAudioDuration stdout) silenceLog
       fuel [0%nat]
     = Some (Fulfilled
               (chunk_words service
                  (ChunkInfo.mk (chunkPath 0) (of_Z 0) NaN))).
Proof.
  intros Hblank. rewrite (getAudioDuration_blank _ Hblank).
  assert (findSplitPoints fuel (detectSilences silenceLog) NaN
            CHUNK_DURATION_SEC = Some [of_Z 0]) as Hplan.
  { unfold findSplitPoints. by rewrite target_loop_unfold. }
  split; [done |]. split; [done |].
  unfold transcribe. cbn [leb]. rewrite Hplan. cbn [mbind option_bind].
  rewrite transcribeChunks_words by done.
  cbn. by rewrite app_nil_r.
Qed.

Lemma transcribe_unreadable_duration_witness :
  Forall (fun c => is_space c = true) [10%N]
  /\ transcribe (example_service false) (lit "a.wav")
       (getAudioDuration [10%N]) [] 0 [0%nat]
     = Some (Fulfilled [timed_word (lit "zero") (of_Z 1) (of_Z 2)]).
Proof.
  assert (Forall (fun c => is_space c = true) [10%N]) as Hblank
    by (by repeat constructor).
  split; [exact Hblank |].
  rewrite (proj2 (proj2 (transcribe_unreadable_duration
             (example_service false) (lit "a.wav") [10%N] [] 0 Hblank))).
  reflexivity.
Defined.

(** ** Speakers: the groups of a list of words *)

Section Speakers.

Lemma join_cons (sep x : jsstring) (r : list jsstring) :
  r <> [] -> join sep (x :: r) = x ++ sep ++ join sep r.
Proof. by destruct r. Qed.

Lemma join_app (sep : jsstring) (l m : list jsstring) :
  l <> [] -> m <> [] -> join sep (l ++ m) = join sep l ++ sep ++ join sep m.
Proof.
  intros Hl Hm. induction l as [| x [| y l] IH]; [done | |].
  - by rewrite <- join_cons.
  - change ((x :: y :: l) ++ m) with (x :: ((y :: l) ++ m)).
    rewrite join_cons by (by simpl). rewrite IH by done.
    rewrite (join_cons sep x (y :: l)) by done. by rewrite <- !app_assoc.
Qed.

(** Closing a group and opening the next one keeps the joined text. *)
Lemma join_groups (texts : list jsstring) (a b : list jsstring) :
  a <> [] -> b <> [] ->
  join (lit " ") ((texts ++ [join (lit " ") a]) ++ [join (lit " ") b])
  = join (lit " ") (texts ++ [join (lit " ") (a ++ b)]).
Proof.
  intros Ha Hb. destruct texts as [| t texts].
  - cbn [app]. rewrite (join_app _ a b) by done. reflexivity.
  - rewrite <- app_assoc.
    rewrite !(join_app _ (t :: texts)) by done.
    f_equal. f_equal. cbn [app]. rewrite (join_app _ a b) by done.
    reflexivity.
Qed.

Lemma group_loop_text (words : list TranscriptionWord.t) :
  forall currentSpeaker currentWords groups,
    currentWords <> [] ->
    join (lit " ")
      (SpeakerGroup.text
         <$> group_loop words currentSpeaker currentWords groups)
    = join (lit " ")
        ((SpeakerGroup.text <$> groups)
           ++ [join (lit " ")
                 (currentWords ++ (TranscriptionWord.word <$> words))]).
Proof.
  induction words as [| w words IH]; intros cs cw groups Hcw;
    cbn [group_loop].
  - rewrite fmap_app, fmap_nil, app_nil_r. reflexivity.
  - cbv zeta. destruct (bool_decide (label_of w = cs)).
    + rewrite IH by (by destruct cw). by rewrite <- app_assoc.
    + rewrite IH by done. rewrite fmap_app.
      change (SpeakerGroup.text <$> [SpeakerGroup.mk cs (join (lit " ") cw)])
        with [join (lit " ") cw].
      rewrite join_groups by done. reflexivity.
Qed.

Lemma no_repeat_snoc (l : list jsstring) (y : jsstring) :
  no_repeat l -> (forall x, last l = Some x -> x <> y) ->
  no_repeat (l ++ [y]).
Proof.
  induction l as [| x [| x' l] IH]; intros Hl Hlast; [done | |].
  - split; [by apply Hlast | done].
  - destruct Hl as [Hxx Hl]. split; [done |].
    apply IH; [done |]. intros z Hz. by apply Hlast.
Qed.

Lemma group_loop_speakers (words : list TranscriptionWord.t) :
  forall currentSpeaker currentWords groups,
    no_repeat ((SpeakerGroup.speaker <$> groups) ++ [currentSpeaker]) ->
    no_repeat
      (SpeakerGroup.speaker
         <$> group_loop words currentSpeaker currentWords groups).
Proof.
  induction words as [| w words IH]; intros cs cw groups Hinv;
    cbn [group_loop].
  - by rewrite fmap_app.
  - cbv zeta. case_bool_decide as Hsame; [by apply IH |].
    apply IH. rewrite fmap_app.
    change (SpeakerGroup.speaker <$> [SpeakerGroup.mk cs (join (lit " ") cw)])
      with [cs].
    apply no_repeat_snoc; [done |].
    intros x Hx. rewrite last_snoc in Hx. injection Hx as <-. congruence.
Qed.

Lemma group_loop_one_speaker (words : list TranscriptionWord.t) :
  forall currentSpeaker currentWords groups,
    Forall (fun w => label_of w = currentSpeaker) words ->
    group_loop words currentSpeaker currentWords groups
    = groups
        ++ [SpeakerGroup.mk currentSpeaker
              (join (lit " ")
                 (currentWords ++ (TranscriptionWord.word <$> words)))].
Proof.
  induction words as [| w words IH]; intros cs cw groups Hall;
    cbn [group_loop].
  - by rewrite app_nil_r.
  - apply Forall_cons in Hall as [Hw Hall]. cbv zeta.
    rewrite bool_decide_eq_true_2 by done.
    rewrite IH by done. by rewrite <- app_assoc.
Qed.

End Speakers.

(** The groups follow the words: no two groups next to each other have the
    same speaker, and the texts of the groups, joined by a space, are the
    words joined by a space, so no word is lost, doubled or moved.  No
    words give no group. *)
Theorem groupWordsBySpeaker_groups (words : list TranscriptionWord.t) :
  no_repeat (SpeakerGroup.speaker <$> groupWordsBySpeaker words)
  /\ join (lit " ") (SpeakerGroup.text <$> groupWordsBySpeaker words)
     = join (lit " ") (TranscriptionWord.word <$> words)
  /\ (groupWordsBySpeaker words = [] <-> words = []).
Proof.
  destruct words as [| w words]; [done |]. unfold groupWordsBySpeaker.
  split; [| split].
  - by apply group_loop_speakers.
  - by rewrite group_loop_text.
  - split; [| done]. intros Hnil.
    apply (f_equal (fmap SpeakerGroup.speaker)) in Hnil.
    pose proof (group_loop_text words (label_of w)
                  [TranscriptionWord.word w] [] ltac:(done)) as Htext.
    destruct words as [| w' words]; [done |].
    destruct (group_loop _ _ _ _); [| done]. exfalso.
    cbn [fmap list_fmap app] in Htext.
    by destruct (TranscriptionWord.word w).
Qed.

(** Words with timestamps all carry the speaker ["0"], so the words of such
    a transcription make one group, whose text is all the words. *)
Theorem groupWordsBySpeaker_timed (result : VerboseResponse.t)
  (offsetSec : number) (w : TimedWord.t) (ws : list TimedWord.t) :
  VerboseResponse.words result = Some (w :: ws) ->
  groupWordsBySpeaker (extractWords result offsetSec)
  = [SpeakerGroup.mk (lit "0")
       (join (lit " ") (TimedWord.word <$> w :: ws))].
Proof.
  intros Hws. unfold extractWords. rewrite Hws.
  rewrite fmap_cons. unfold groupWordsBySpeaker.
  rewrite group_loop_one_speaker.
  - cbn [app]. do 3 f_equal. by rewrite <- list_fmap_compose.
  - apply Forall_fmap, Forall_true. done.
Qed.

Lemma groupWordsBySpeaker_timed_witness :
  VerboseResponse.words
    (VerboseResponse.mk (lit "a b") (Some [TimedWord.mk (lit "a") (of_Z 0)
       (of_Z 1); TimedWord.mk (lit "b") (of_Z 1) (of_Z 2)]) None)
  = Some [TimedWord.mk (lit "a") (of_Z 0) (of_Z 1);
          TimedWord.mk (lit "b") (of_Z 1) (of_Z 2)]
  /\ groupWordsBySpeaker
       (extractWords
          (VerboseResponse.mk (lit "a b") (Some [TimedWord.mk (lit "a")
             (of_Z 0) (of_Z 1); TimedWord.mk (lit "b") (of_Z 1) (of_Z 2)])
             None)
          (of_Z 600))
     = [SpeakerGroup.mk (lit "0") (lit "a b")].
Proof.
  split; [reflexivity |].
  exact (groupWordsBySpeaker_timed
           (VerboseResponse.mk (lit "a b") (Some [TimedWord.mk (lit "a")
              (of_Z 0) (of_Z 1); TimedWord.mk (lit "b") (of_Z 1) (of_Z 2)])
              None)
           (of_Z 600)
           (TimedWord.mk (lit "a") (of_Z 0) (of_Z 1))
           [TimedWord.mk (lit "b") (of_Z 1) (of_Z 2)] eq_refl).
Defined.

(** ** Scenes: the words of a time range *)

Section Scenes.

Lemma in_scene_Fin (a b : Q) (w : TranscriptionWord.t) :
  in_scene (Fin a) (Fin b) w = true
  <-> exists q,
        parseOffset (TranscriptionWord.startOffset w) = Fin q
        /\ (a <= q)%Q /\ (q < b)%Q
        /\ TranscriptionWord.startOffset w <> None
        /\ TranscriptionWord.startOffset w <> Some [].
Proof.
  unfold in_scene.
  destruct (TranscriptionWord.startOffset w) as [[| c r] |] eqn:Hoff.
  - split; [done |]. by intros (q & _ & _ & _ & _ & Hne).
  - cbv zeta. destruct (parseOffset _) as [q | | |].
    + unfold geb. rewrite andb_true_iff, leb_Fin, ltb_Fin. split.
      * intros [Ha Hb]. by exists q.
      * intros (q' & [= <-] & Ha & Hb & _). done.
    + split; [by simpl |]. by intros (q' & ? & _).
    + split; [by simpl |]. by intros (q' & ? & _).
    + split; [by simpl |]. by intros (q' & ? & _).
  - split; [done |]. by intros (q & _ & _ & _ & Hne & _).
Qed.

Lemma in_scene_split (a b c : Q) (w : TranscriptionWord.t) :
  (a <= b)%Q -> (b <= c)%Q ->
  in_scene (Fin a) (Fin c) w
  = in_scene (Fin a) (Fin b) w || in_scene (Fin b) (Fin c) w
  /\ in_scene (Fin a) (Fin b) w && in_scene (Fin b) (Fin c) w = false.
Proof.
  intros Hab Hbc.
  pose proof (in_scene_Fin a c w) as Hac.
  pose proof (in_scene_Fin a b w) as Hab'.
  pose proof (in_scene_Fin b c w) as Hbc'.
  destruct (in_scene (Fin a) (Fin b) w) eqn:H1;
    destruct (in_scene (Fin b) (Fin c) w) eqn:H2;
    destruct (in_scene (Fin a) (Fin c) w) eqn:H3; try done; exfalso.
  - destruct (proj1 Hab' eq_refl) as (q & Hq & ? & ? & _).
    destruct (proj1 Hbc' eq_refl) as (q' & Hq' & ? & ? & _).
    rewrite Hq in Hq'. injection Hq' as <-. lra.
  - destruct (proj1 Hab' eq_refl) as (q & Hq & ? & ? & _).
    destruct (proj1 Hbc' eq_refl) as (q' & Hq' & ? & ? & _).
    rewrite Hq in Hq'. injection Hq' as <-. lra.
  - destruct (proj1 Hab' eq_refl) as (q & Hq & ? & ? & ? & ?).
    enough (false = true) by done. apply Hac. exists q.
    repeat split; try done. lra.
  - destruct (proj1 Hbc' eq_refl) as (q & Hq & ? & ? & ? & ?).
    enough (false = true) by done. apply Hac. exists q.
    repeat split; try done. lra.
  - destruct (proj1 Hac eq_refl) as (q & Hq & ? & ? & ? & ?).
    destruct (Qlt_le_dec q b) as [Hlt | Hge].
    + enough (false = true) by done. apply Hab'. by exists q.
    + enough (false = true) by done. apply Hbc'. by exists q.
Qed.

End Scenes.

(** Two scenes that meet share no word, and together hold the words of the
    range they cover: a word belongs to the scene in which it starts. *)
Theorem getWordsForScene_adjacent (words : list TranscriptionWord.t)
  (a b c : Q) :
  (a <= b)%Q -> (b <= c)%Q ->
  getWordsForScene words (Fin a) (Fin c)
  ≡ₚ getWordsForScene words (Fin a) (Fin b)
     ++ getWordsForScene words (Fin b) (Fin c)
  /\ forall w,
       w ∈ getWordsForScene words (Fin a) (Fin b) ->
       w ∉ getWordsForScene words (Fin b) (Fin c).
Proof.
  intros Hab Hbc. unfold getWordsForScene. split.
  - induction words as [| w words IH]; [done |].
    rewrite !filter_cons.
    destruct (in_scene_split a b c w Hab Hbc) as [-> Hnot].
    destruct (in_scene (Fin a) (Fin b) w), (in_scene (Fin b) (Fin c) w);
      try done; simpl.
    + by constructor.
    + rewrite IH. apply Permutation_middle.
  - intros w [H1 _]%list_elem_of_filter [H2 _]%list_elem_of_filter.
    destruct (in_scene_split a b c w Hab Hbc) as [_ Hnot].
    apply Is_true_true in H1, H2. by rewrite H1, H2 in Hnot.
Qed.

Lemma getWordsForScene_adjacent_witness :
  (0 <= 10)%Q /\ (10 <= 20)%Q
  /\ getWordsForScene
       [timed_word (lit "a") (of_Z 3) (of_Z 4);
        timed_word (lit "b") (of_Z 10) (of_Z 11)] (Fin 0) (Fin 20)
     ≡ₚ getWordsForScene
          [timed_word (lit "a") (of_Z 3) (of_Z 4);
           timed_word (lit "b") (of_Z 10) (of_Z 11)] (Fin 0) (Fin 10)
        ++ getWordsForScene
             [timed_word (lit "a") (of_Z 3) (of_Z 4);
              timed_word (lit "b") (of_Z 10) (of_Z 11)] (Fin 10) (Fin 20).
Proof.
  split; [q_const |]. split; [q_const |].
  apply (getWordsForScene_adjacent
           [timed_word (lit "a") (of_Z 3) (of_Z 4);
            timed_word (lit "b") (of_Z 10) (of_Z 11)] 0 10 20); q_const.
Defined.

(** A word whose start was written by the transcription script, from a
    time that is not negative, belongs to a scene when that time, rounded
    to milliseconds, lies in the scene: at or after its start and before
    its end. *)
Theorem in_scene_rounded (w : TranscriptionWord.t) (q a b : Q) :
  (0 <= q)%Q ->
  TranscriptionWord.startOffset w = Some (seconds_text (Fin q)) ->
  in_scene (Fin a) (Fin b) w = true
  <-> (a <= round_ms q)%Q /\ (round_ms q < b)%Q.
Proof.
  intros Hq Hoff. rewrite in_scene_Fin, Hoff.
  destruct (parseOffset_seconds_text q Hq) as (v & -> & Hv).
  fold (round_ms q) in Hv. split.
  - intros (q' & [= <-] & Ha & Hb & _). by rewrite <- Hv.
  - intros [Ha Hb]. exists v.
    split; [done |]. split; [by rewrite Hv |]. split; [by rewrite Hv |].
    split; [done |].
    unfold seconds_text. intros [= Hnil]. by apply app_eq_nil in Hnil as [_ ?].
Qed.

Lemma in_scene_rounded_witness :
  (0 <= 99996 # 10000)%Q
  /\ TranscriptionWord.startOffset
       (timed_word (lit "a") (Fin (99996 # 10000)) (of_Z 11))
     = Some (seconds_text (Fin (99996 # 10000)))
  /\ in_scene (Fin 10) (Fin 20)
       (timed_word (lit "a") (Fin (99996 # 10000)) (of_Z 11)) = true.
Proof.
  split; [q_const |]. split; [reflexivity |].
  apply (in_scene_rounded _ (99996 # 10000) 10 20); [q_const | reflexivity |].
  split; q_const.
Defined.

(** ** The clock text of the scene list *)

(** What [Utils.toMMSS] computes for a time that is not negative: the whole
    minutes [m], the whole seconds [s] left over, and the fraction [d] of
    a second left over. *)
Lemma Utils_toMMSS_parts (q : Q) :
  (0 <= q)%Q ->
  let m := Qfloor (q / 60) in
  let s := Qfloor (q - 60 * inject_Z m) in
  let d := (q - 60 * inject_Z m - inject_Z s)%Q in
  Utils.toMMSS (Fin q)
  = padStart 2 48%N (digits_of_Z m) ++ lit ":"
      ++ (if Qltb 0 d then
            padStart 2 48%N (digits_of_Z s)
              ++ drop 1 (fixed_of 1 (Qfloor (d * 10 + (1 # 2))))
          else padStart 2 48%N (digits_of_Z s))
  /\ (0 <= d)%Q /\ (d < 1)%Q.
Proof.
  intros Hq m s d.
  destruct (toMMSS_parts q Hq) as [_ [Hs0 Hs60]]. fold m in Hs0, Hs60.
  assert (0 <= q / 60)%Q as Hpos.
  { apply Qle_shift_div_l; [done | lra]. }
  pose proof (Qfloor_le (q - 60 * inject_Z m)) as Hlo.
  pose proof (Qlt_floor (q - 60 * inject_Z m)) as Hhi. fold s in Hlo, Hhi.
  rewrite inject_Z_plus in Hhi. change (inject_Z 1) with 1%Q in Hhi.
  assert (0 <= d)%Q as Hd0 by (subst d; lra).
  assert (d < 1)%Q as Hd1 by (subst d; lra).
  split; [| done].
  assert (Fin q %% of_Z 60 = Fin (q - 60 * inject_Z m)) as Hsecs.
  { change (Fin q %% of_Z 60)
      with (Fin (q - 60 * inject_Z (Qtrunc (q / 60)))).
    unfold Qtrunc. by rewrite (proj2 (Qltb_ge (q / 60) 0) Hpos). }
  assert (Fin (q - 60 * inject_Z m) %% of_Z 1
          = Fin (q - 60 * inject_Z m - 1 * inject_Z s)) as Hfrac.
  { change (Fin (q - 60 * inject_Z m) %% of_Z 1)
      with (Fin (q - 60 * inject_Z m
                 - 1 * inject_Z (Qtrunc ((q - 60 * inject_Z m) / 1)))).
    assert ((q - 60 * inject_Z m) / 1 == q - 60 * inject_Z m)%Q as Hone
      by (by field).
    unfold Qtrunc.
    rewrite (Qltb_comp _ _ 0 Hone), (proj2 (Qltb_ge _ 0) Hs0).
    subst s. by rewrite Hone. }
  assert (q - 60 * inject_Z m - 1 * inject_Z s == d)%Q as Hd
    by (subst d; ring).
  unfold Utils.toMMSS. cbv zeta. rewrite Hsecs, Hfrac.
  change (Fin q / of_Z 60) with (Fin (q / 60)).
  unfold floor, toString. rewrite !Qfloor_Z. fold m. fold s.
  change (of_Z 0 <? Fin ?x) with (Qltb 0 x).
  assert (Qltb 0 (q - 60 * inject_Z m - 1 * inject_Z s) = Qltb 0 d) as ->.
  { destruct (Qltb 0 d) eqn:Hpos'.
    - apply Qltb_lt. apply Qltb_lt in Hpos'. by rewrite Hd.
    - apply Qltb_ge. apply Qltb_ge in Hpos'. by rewrite Hd. }
  rewrite (toFixed_comp 1 _ d Hd). unfold toFixed.
  rewrite (proj2 (Qltb_ge d 0) Hd0). by rewrite fixed_digits_of.
Qed.

(** A whole number of seconds is written without a decimal part, as
    minutes and seconds of two digits at least. *)
Theorem Utils_toMMSS_whole (n : Z) :
  (0 <= n)%Z ->
  Utils.toMMSS (of_Z n)
  = padStart 2 48%N (digits_of_Z (n / 60)) ++ lit ":"
      ++ padStart 2 48%N (digits_of_Z (n mod 60)).
Proof.
  intros Hn. unfold of_Z.
  destruct (Utils_toMMSS_parts (inject_Z n)) as (-> & Hd0 & Hd1).
  { change 0%Q with (inject_Z 0). rewrite <- Zle_Qle. lia. }
  assert (Qfloor (inject_Z n / 60) = (n / 60)%Z) as Hm.
  { unfold Qfloor, Qdiv, Qmult, Qinv, inject_Z. simpl.
    by rewrite Z.mul_1_r. }
  rewrite Hm in *.
  assert (inject_Z n - 60 * inject_Z (n / 60) == inject_Z (n mod 60))%Q
    as Hsecs.
  { rewrite (Z.mod_eq n 60) by lia.
    unfold Z.sub. rewrite inject_Z_plus, inject_Z_opp, inject_Z_mult.
    change (inject_Z 60) with 60%Q. ring. }
  assert (Qfloor (inject_Z n - 60 * inject_Z (n / 60)) = (n mod 60)%Z) as Hs.
  { rewrite Hsecs. apply Qfloor_Z. }
  rewrite Hs in *.
  assert (Qltb 0 (inject_Z n - 60 * inject_Z (n / 60) - inject_Z (n mod 60))
          = false) as ->; [| done].
  apply Qltb_ge. rewrite Hsecs. lra.
Qed.

Lemma Utils_toMMSS_whole_witness :
  (0 <= 754)%Z /\ Utils.toMMSS (of_Z 754) = lit "12:34".
Proof.
  split; [lia |]. rewrite (Utils_toMMSS_whole 754) by lia. reflexivity.
Defined.

(** [Utils.toMMSS] rounds the fraction of a second to tenths and drops the
    digit before the point: a time 0.95 seconds or more past a whole second
    is written with [.0] after that second, almost a second early. *)
Theorem Utils_toMMSS_late_fraction (q : Q) :
  (0 <= q)%Q ->
  let m := Qfloor (q / 60) in
  let s := Qfloor (q - 60 * inject_Z m) in
  ((95 # 100) <= q - 60 * inject_Z m - inject_Z s)%Q ->
  Utils.toMMSS (Fin q)
  = padStart 2 48%N (digits_of_Z m) ++ lit ":"
      ++ padStart 2 48%N (digits_of_Z s) ++ lit ".0".
Proof.
  intros Hq m s Hlate.
  destruct (Utils_toMMSS_parts q Hq) as (-> & Hd0 & Hd1).
  fold m in Hd0, Hd1 |- *. fold s in Hd0, Hd1 |- *.
  set (d := (q - 60 * inject_Z m - inject_Z s)%Q) in *.
  rewrite (proj2 (Qltb_lt 0 d)) by lra.
  assert (Qfloor (d * 10 + (1 # 2)) = 10%Z) as ->; [| reflexivity].
  apply Qfloor_unique.
  - change (inject_Z 10) with 10%Q. lra.
  - change (inject_Z (10 + 1)) with 11%Q. lra.
Qed.

Lemma Utils_toMMSS_late_fraction_witness :
  (0 <= 597 # 100)%Q
  /\ ((95 # 100)
      <= (597 # 100) - 60 * inject_Z (Qfloor ((597 # 100) / 60))
         - inject_Z (Qfloor ((597 # 100)
                             - 60 * inject_Z (Qfloor ((597 # 100) / 60)))))%Q
  /\ Utils.toMMSS (Fin (597 # 100)) = lit "00:05.0"
  /\ Utils.toMMSS (Fin (503 # 100)) = lit "00:05.0".
Proof.
  split; [q_const |]. split; [q_const |].
  split; [| vm_compute; reflexivity].
  rewrite (Utils_toMMSS_late_fraction (597 # 100)); [reflexivity | |];
    q_const.
Defined.

(** ** Transcripts: the speaker labels by language *)

Section Transcripts.

Lemma relabel_idem (w : TranscriptionWord.t) : relabel (relabel w) = relabel w.
Proof.
  unfold relabel. cbn [TranscriptionWord.word TranscriptionWord.startOffset
    TranscriptionWord.endOffset TranscriptionWord.startTime
    TranscriptionWord.endTime TranscriptionWord.speakerLabel].
  by destruct (containsKorean (TranscriptionWord.word w)).
Qed.

Lemma in_scene_relabel (a b : number) (w : TranscriptionWord.t) :
  in_scene a b (relabel w) = in_scene a b w.
Proof. reflexivity. Qed.

Lemma seconds_text_add_zero (x : number) :
  seconds_text (x + of_Z 0) = seconds_text x.
Proof.
  destruct x as [q | | |]; try reflexivity.
  apply seconds_text_comp. change (inject_Z 0) with 0%Q. ring.
Qed.

Lemma toFixed_add_zero (x : number) : toFixed 3 (x + of_Z 0) = toFixed 3 x.
Proof.
  destruct x as [q | | |]; try reflexivity.
  apply toFixed_comp. change (inject_Z 0) with 0%Q. ring.
Qed.

End Transcripts.

(** Post-processing a transcript twice is post-processing it once, and the
    words loaded from a post-processed transcript are the words loaded from
    the transcript, each relabelled: text and times are kept, and the label
    becomes the Korean one where the text holds a Hangul syllable.  The
    language code of a result is not carried over. *)
Theorem postprocessTranscript_words (transcript : TranscriptionResult) :
  postprocessTranscript (postprocessTranscript transcript)
  = postprocessTranscript transcript
  /\ loadTranscriptionWords (postprocessTranscript transcript)
     = relabel <$> loadTranscriptionWords transcript
  /\ Forall (fun r => RecognitionResult.languageCode r = None)
       (postprocessTranscript transcript).
Proof.
  unfold postprocessTranscript, loadTranscriptionWords. split; [| split].
  - rewrite <- list_fmap_compose. apply list_fmap_ext. intros _ r _.
    cbn [compose RecognitionResult.alternatives]. f_equal.
    rewrite <- list_fmap_compose. apply list_fmap_ext. intros _ alt _.
    cbn [compose Alternative.words]. f_equal.
    rewrite <- list_fmap_compose. apply list_fmap_ext. intros _ w _.
    apply relabel_idem.
  - induction transcript as [| r transcript IH]; [done |].
    rewrite !fmap_cons. cbn [concat]. rewrite fmap_app, IH. f_equal.
    cbn [RecognitionResult.alternatives].
    by destruct (RecognitionResult.alternatives r).
  - apply Forall_fmap, Forall_true. done.
Qed.

(** The transcript that the transcription script writes is read back as
    the words it was written from, and after post-processing as these
    words relabelled. *)
Theorem output_read_back (allWords : list TranscriptionWord.t) :
  loadTranscriptionWords (output allWords) = allWords
  /\ loadTranscriptionWords (postprocessTranscript (output allWords))
     = relabel <$> allWords.
Proof.
  unfold output, postprocessTranscript, loadTranscriptionWords.
  cbn. by rewrite !app_nil_r.
Qed.

(** Relabelling does not move a word to another scene: the words of a
    scene, taken after post-processing, are the relabelled words of that
    scene. *)
Theorem getWordsForScene_relabel (words : list TranscriptionWord.t)
  (startTime endTime : number) :
  getWordsForScene (relabel <$> words) startTime endTime
  = relabel <$> getWordsForScene words startTime endTime.
Proof.
  unfold getWordsForScene. induction words as [| w words IH]; [done |].
  rewrite fmap_cons, !filter_cons, in_scene_relabel.
  destruct (decide (in_scene startTime endTime w)); by rewrite IH.
Qed.

(** ** The conversion without guard *)

(** Where [extractWords] skips a segment whose text is blank,
    [convertToTranscriptionFormat] gives one word for it, with an empty
    text, over the whole segment. *)
Theorem plain_words_of_segment_blank (speaker text : jsstring) (a b : Q)
  (offsetSec : number) :
  Forall (fun c => is_space c = true) text ->
  plain_words_of_segment (DiarizedSegment.mk speaker text (Fin a) (Fin b))
  = [TranscriptionWord.mk []
       (Some (seconds_text (Fin a))) (Some (seconds_text (Fin b)))
       None None (Some (replace (lit "speaker_") [] speaker))]
  /\ words_of_segment offsetSec
       (DiarizedSegment.mk speaker text (Fin a) (Fin b)) = [].
Proof.
  intros Hblank. split; [| by apply words_of_segment_blank].
  unfold plain_words_of_segment.
  cbn [DiarizedSegment.text DiarizedSegment.start DiarizedSegment.end_].
  rewrite (trim_blank _ Hblank).
  change (split_spaces []) with [[] : jsstring].
  cbn [imap length]. unfold plain_word_of_token.
  cbn [DiarizedSegment.start DiarizedSegment.speaker].
  change ((Fin b - Fin a) / of_nat 1) with (Fin ((b + - a) / 1)).
  change (Fin a + of_nat 0 * Fin ?w) with (Fin (a + 0 * w)).
  change (Fin a + of_nat (0 + 1) * Fin ?w) with (Fin (a + 1 * w)).
  rewrite (seconds_text_comp (a + 0 * ((b + - a) / 1)) a) by ring.
  rewrite (seconds_text_comp (a + 1 * ((b + - a) / 1)) b) by (by field).
  reflexivity.
Qed.

Lemma plain_words_of_segment_blank_witness :
  Forall (fun c => is_space c = true) (lit "  ")
  /\ plain_words_of_segment
       (DiarizedSegment.mk (lit "speaker_1") (lit "  ") (Fin 2) (Fin 5))
     = [TranscriptionWord.mk [] (Some (lit "2.000s")) (Some (lit "5.000s"))
          None None (Some (lit "1"))].
Proof.
  assert (Forall (fun c => is_space c = true) (lit "  ")) as Hblank
    by (by repeat constructor).
  split; [exact Hblank |].
  rewrite (proj1 (plain_words_of_segment_blank (lit "speaker_1") (lit "  ")
                    2 5 (of_Z 0) Hblank)).
  reflexivity.
Defined.

(** On a result without blank segments both conversions give the same
    words, apart from the clock texts, which only [extractWords] writes. *)
Theorem convertToTranscriptionFormat_agrees (result : VerboseResponse.t) :
  (forall segs,
     VerboseResponse.segments result = Some segs ->
     Forall (fun segment => has_text (DiarizedSegment.text segment)) segs) ->
  loadTranscriptionWords (convertToTranscriptionFormat result)
  = without_clock <$> extractWords result (of_Z 0).
Proof.
  intros Htext. unfold convertToTranscriptionFormat, loadTranscriptionWords,
    extractWords.
  cbn [fmap list_fmap concat RecognitionResult.alternatives
       Alternative.words].
  rewrite app_nil_r.
  destruct (VerboseResponse.words result) as [ws|].
  { rewrite <- list_fmap_compose. apply list_fmap_ext. intros _ w _.
    unfold plain_word_of_timed, word_of_timed, without_clock, compose.
    cbn [TranscriptionWord.word TranscriptionWord.startOffset
      TranscriptionWord.endOffset TranscriptionWord.speakerLabel].
    by rewrite !seconds_text_add_zero. }
  destruct (VerboseResponse.segments result) as [segs|]; [| done].
  specialize (Htext segs eq_refl).
  induction Htext as [| segment segs Hseg _ IH]; [done |].
  change (list_fmap ?A ?B ?f ?l) with (f <$> l) in *.
  rewrite !fmap_cons. cbn [concat]. rewrite fmap_app, IH. f_equal.
  destruct (words_of_segment_tokens (of_Z 0) segment Hseg) as (_ & _ & ->).
  unfold plain_words_of_segment. rewrite fmap_imap.
  apply imap_ext. intros i token _.
  unfold plain_word_of_token, uniform_word, without_clock, compose.
  cbn [TranscriptionWord.word TranscriptionWord.startOffset
    TranscriptionWord.endOffset TranscriptionWord.speakerLabel].
  by rewrite !seconds_text_add_zero.
Qed.

Lemma convertToTranscriptionFormat_agrees_witness :
  Forall (fun segment => has_text (DiarizedSegment.text segment))
    [DiarizedSegment.mk (lit "speaker_1") (lit "a b") (of_Z 0) (of_Z 2)]
  /\ loadTranscriptionWords
       (convertToTranscriptionFormat
          (VerboseResponse.mk (lit "a b") None
             (Some [DiarizedSegment.mk (lit "speaker_1") (lit "a b")
                      (of_Z 0) (of_Z 2)])))
     = [TranscriptionWord.mk (lit "a")
          (Some (lit "0.000s")) (Some (lit "1.000s")) None None
          (Some (lit "1"));
        TranscriptionWord.mk (lit "b")
          (Some (lit "1.000s")) (Some (lit "2.000s")) None None
          (Some (lit "1"))].
Proof.
  assert (Forall (fun segment => has_text (DiarizedSegment.text segment))
            [DiarizedSegment.mk (lit "speaker_1") (lit "a b")
               (of_Z 0) (of_Z 2)]) as Htext
    by (repeat constructor; apply Exists_cons_hd; reflexivity).
  split; [exact Htext |].
  rewrite (convertToTranscriptionFormat_agrees
             (VerboseResponse.mk (lit "a b") None
                (Some [DiarizedSegment.mk (lit "speaker_1") (lit "a b")
                         (of_Z 0) (of_Z 2)]))).
  - reflexivity.
  - by intros segs [= <-].
Defined.

(** ** Split planner: the ends of the silences play no part *)

Section PlannerStarts.

Variables silences1 silences2 : list Silence.t.
Hypothesis same_starts :
  Silence.start <$> silences1 = Silence.start <$> silences2.

Lemma consider_same_best (target window : number) (st1 st2 : best_state)
  (s1 s2 : Silence.t) :
  Silence.start s1 = Silence.start s2 -> same_best st1 st2 ->
  same_best (consider target window st1 s1) (consider target window st2 s2).
Proof.
  intros Hs [Hfst Hsnd]. unfold consider, in_window.
  rewrite Hs, Hsnd.
  destruct (_ && _); [| done].
  cbv zeta. destruct (_ <? _); [| done].
  split; [| done]. cbn [fst fmap option_fmap option_map]. by rewrite Hs.
Qed.

Lemma scan_same_best (target window : number) :
  forall l1 l2 st1 st2,
    Silence.start <$> l1 = Silence.start <$> l2 -> same_best st1 st2 ->
    same_best (scan l1 target window st1) (scan l2 target window st2).
Proof.
  unfold scan. induction l1 as [| s1 l1 IH]; intros [| s2 l2] st1 st2 Hl Hst;
    try done.
  rewrite !fmap_cons in Hl. injection Hl as Hs Hl. cbn [fold_left].
  apply IH; [done |]. by apply consider_same_best.
Qed.

Lemma window_loop_same_best (target : number) (fuel : nat) :
  forall window st1 st2,
    same_best st1 st2 ->
    match window_loop fuel silences1 target window st1,
          window_loop fuel silences2 target window st2 with
    | Some r1, Some r2 => same_best r1 r2
    | None, None => True
    | _, _ => False
    end.
Proof.
  induction fuel as [| fuel IH]; intros window st1 st2 Hst;
    cbn [window_loop];
    assert (bool_decide (is_Some (fst st1)) = bool_decide (is_Some (fst st2)))
      as -> by (destruct Hst as [Hfst _]; apply bool_decide_ext;
                rewrite <- !fmap_is_Some with (f := Silence.start);
                by rewrite Hfst);
    destruct (_ && _); try done.
  apply IH. by apply scan_same_best.
Qed.

Lemma search_windows_same (target : number) :
  match search_windows silences1 target, search_windows silences2 target with
  | Some r1, Some r2 => chosen r1 target = chosen r2 target
  | None, None => True
  | _, _ => False
  end.
Proof.
  unfold search_windows.
  pose proof (window_loop_same_best target 7 (of_Z 30) (None, PInf)
                (None, PInf) ltac:(done)) as Hloop.
  destruct (window_loop 7 silences1 _ _ _) as [r1|],
    (window_loop 7 silences2 _ _ _) as [r2|]; try done.
  destruct Hloop as [Hfst _]. unfold chosen.
  destruct (fst r1), (fst r2); try done. by injection Hfst.
Qed.

Lemma target_loop_same (totalDuration chunkSec : number) (fuel : nat) :
  forall target splits,
    target_loop fuel silences1 totalDuration chunkSec target splits
    = target_loop fuel silences2 totalDuration chunkSec target splits.
Proof.
  induction fuel as [| fuel IH]; intros target splits; [done |].
  rewrite !target_loop_unfold. destruct (target <? totalDuration); [| done].
  pose proof (search_windows_same target) as Hsame.
  destruct (search_windows silences1 target) as [r1|],
    (search_windows silences2 target) as [r2|]; try done.
  cbn [mbind option_bind]. rewrite Hsame. apply IH.
Qed.

End PlannerStarts.

(** The plan depends on the silences through their starts only: the
    planner never looks at where a silence ends, so a cut falls where a
    silence begins, and the silence itself opens the next chunk. *)
Theorem findSplitPoints_ignores_ends (silences1 silences2 : list Silence.t)
  (totalDuration chunkSec : number) (fuel : nat) :
  Silence.start <$> silences1 = Silence.start <$> silences2 ->
  findSplitPoints fuel silences1 totalDuration chunkSec
  = findSplitPoints fuel silences2 totalDuration chunkSec.
Proof.
  intros Hstarts. unfold findSplitPoints. by apply target_loop_same.
Qed.

Lemma findSplitPoints_ignores_ends_witness :
  Silence.start <$> [Silence.mk (of_Z 590) (of_Z 592)]
  = Silence.start <$> [Silence.mk (of_Z 590) (of_Z 700)]
  /\ findSplitPoints 2 [Silence.mk (of_Z 590) (of_Z 592)]
       (of_Z 1000) (of_Z 600)
     = findSplitPoints 2 [Silence.mk (of_Z 590) (of_Z 700)]
         (of_Z 1000) (of_Z 600).
Proof.
  split; [reflexivity |].
  apply (findSplitPoints_ignores_ends
           [Silence.mk (of_Z 590) (of_Z 592)]
           [Silence.mk (of_Z 590) (of_Z 700)]).
  reflexivity.
Defined.
